(** * BECE Master tutor: chat / audio interaction controller

    A shallow embedding of the TutorChat component (components/TutorChat.tsx)
    and of the AI client (services/geminiService.ts), and the properties of
    the conversation controller, the answer/error encodings and the audio
    pipeline that hold (or fail) on that code.

    Conventions of the embedding:
    - a JavaScript string is the list of its UTF-16 code units;
    - React state and refs of the component are one record, every handler is
      a function from the record to the record and to the list of effects
      (calls to the outside) it issued, in program order;
    - an [await] splits a handler in the part that runs before it and the
      continuation, which receives the outcome of the awaited call;
    - [Date.now()] and [navigator.onLine] are inputs of the handler that
      reads them. *)

From Stdlib Require Import String Ascii DecimalString.
From Stdlib Require Import List Bool Arith NArith ZArith QArith Qround Lia.
From Stdlib Require Strings.Byte.
From Stdlib Require DecimalN.
Import ListNotations.

Close Scope Q_scope.

(* ================================================================== *)
(** * JavaScript strings *)
(* ================================================================== *)

Module Js.

(** A UTF-16 code unit. *)
Abbreviation char16 := N.

Abbreviation jsstring := (list char16).

(** A source literal made of ASCII characters only. *)
Definition lit (s : string) : jsstring :=
  map N_of_ascii (list_ascii_of_string s).

Arguments lit s%_string.

Fixpoint eqb (s t : jsstring) : bool :=
  match s, t with
  | [], [] => true
  | c :: s', d :: t' => N.eqb c d && eqb s' t'
  | _, _ => false
  end.

(** Truthiness of a string value: only the empty string is falsy. *)
Definition truthy (s : jsstring) : bool :=
  match s with [] => false | _ :: _ => true end.

(** Truthiness of a [string | null | undefined] value. *)
Definition truthy_opt (s : option jsstring) : bool :=
  match s with Some t => truthy t | None => false end.

(** [s || undefined] and [s || null] on a [string | null | undefined]. *)
Definition or_undefined (s : option jsstring) : option jsstring :=
  if truthy_opt s then s else None.

(** [String.prototype.startsWith]. *)
Fixpoint startsWith (p s : jsstring) : bool :=
  match p, s with
  | [], _ => true
  | c :: p', d :: s' => N.eqb c d && startsWith p' s'
  | _ :: _, [] => false
  end.

(** [String.prototype.includes]. *)
Fixpoint includes (p s : jsstring) : bool :=
  startsWith p s ||
  match s with
  | [] => false
  | _ :: s' => includes p s'
  end.

(** [String.prototype.split] with a string separator. For a non-empty
    separator the string is cut at every occurrence found scanning from the
    left, the scan resuming after the occurrence. [skip] counts the code
    units of the current occurrence still to be passed over, [acc] is the
    current piece, reversed. *)
Fixpoint split_go (sep : jsstring) (skip : nat) (acc s : jsstring)
  : list jsstring :=
  match s with
  | [] => [rev acc]
  | c :: s' =>
      match skip with
      | S k => split_go sep k acc s'
      | O =>
          if startsWith sep s
          then rev acc :: split_go sep (length sep - 1) [] s'
          else split_go sep 0 (c :: acc) s'
      end
  end.

Definition split (sep s : jsstring) : list jsstring :=
  match sep with
  | [] => map (fun c => [c]) s
  | _ :: _ => split_go sep 0 [] s
  end.

(** [String.prototype.replace] with a string pattern: the first occurrence
    only. *)
Fixpoint replace (pat rep s : jsstring) : jsstring :=
  if startsWith pat s then rep ++ skipn (length pat) s
  else match s with
       | [] => []
       | c :: s' => c :: replace pat rep s'
       end.

(** LineTerminator code points: LF, CR, LS, PS. *)
Definition isLineTerminator (c : char16) : bool :=
  (N.eqb c 10 || N.eqb c 13 || N.eqb c 8232 || N.eqb c 8233)%N.

(** WhiteSpace code points: TAB, VT, FF, SP, NBSP, ZWNBSP and category Zs. *)
Definition isWhiteSpace (c : char16) : bool :=
  (N.eqb c 9 || N.eqb c 11 || N.eqb c 12 || N.eqb c 32 || N.eqb c 160
   || N.eqb c 5760 || (N.leb 8192 c && N.leb c 8202)
   || N.eqb c 8239 || N.eqb c 8287 || N.eqb c 12288 || N.eqb c 65279)%N.

Definition isTrimmed (c : char16) : bool :=
  isWhiteSpace c || isLineTerminator c.

Fixpoint trimStart (s : jsstring) : jsstring :=
  match s with
  | [] => []
  | c :: s' => if isTrimmed c then trimStart s' else s
  end.

(** [String.prototype.trim]. *)
Definition trim (s : jsstring) : jsstring :=
  rev (trimStart (rev (trimStart s))).

(** [Number.prototype.toString] on a non-negative integer. *)
Definition toString (n : N) : jsstring :=
  lit (NilZero.string_of_uint (N.to_uint n)).

End Js.

Import Js.

(* ================================================================== *)
(** * Data model (types.ts) *)
(* ================================================================== *)

Inductive Subject :=
| Mathematics | EnglishLanguage | IntegratedScience | SocialStudies
| ICT | RME | French.

Definition subject_name (s : Subject) : jsstring :=
  match s with
  | Mathematics => lit "Mathematics"
  | EnglishLanguage => lit "English Language"
  | IntegratedScience => lit "Integrated Science"
  | SocialStudies => lit "Social Studies"
  | ICT => lit "ICT"
  | RME => lit "RME"
  | French => lit "French"
  end.

Inductive Role := user | model.

Definition Role_eqb (a b : Role) : bool :=
  match a, b with
  | user, user | model, model => true
  | _, _ => false
  end.

Module ChatMessage.
Record t := mk {
  id : jsstring;
  role : Role;
  text : jsstring;
  image : option jsstring
}.
End ChatMessage.

Abbreviation ChatMessage := ChatMessage.t.

(* ================================================================== *)
(** * AI response client (services/geminiService.ts) *)
(* ================================================================== *)

(** The [type] field of a [StudyAIError]. *)
Inductive ErrorType := network | timeout | server | safety | unknown.

Definition ErrorType_name (k : ErrorType) : jsstring :=
  match k with
  | network => lit "network"
  | timeout => lit "timeout"
  | server => lit "server"
  | safety => lit "safety"
  | unknown => lit "unknown"
  end.

Record StudyAIError := mkStudyAIError {
  type : ErrorType;
  message : jsstring
}.

(** A value thrown in JavaScript, as far as the two [catch] blocks look at
    it: an instance of [StudyAIError]; another value of which
    [error.message] reads as a string, or as [null] or [undefined] (a
    thrown primitive other than these two has no [message]); or a value on
    which [error.message?.toLowerCase()] itself throws, that is [null],
    [undefined], or a value whose [message] is neither [null] nor
    [undefined] nor a string. The last one carries the message of the
    [TypeError] that the engine throws there. *)
Inductive Thrown :=
| ThrownStudyAIError (e : StudyAIError)
| ThrownOther (msg : option jsstring)
| ThrownUnreadable (typeError : jsstring).

(** What [ai.models.generateContent] of the SDK gives back to the [await]:
    a response, of which the code reads [text] and the [finishReason] of
    the first candidate, or a thrown value. *)
Inductive GenerateContentOutcome :=
| Response (text : option jsstring) (finishReason : option jsstring)
| Rejected (e : Thrown).

(** The request handed to [generateContent] by [solveQuestion]. *)
Record Request := mkRequest {
  req_model : jsstring;
  req_text : jsstring;
  req_inlineData : option (option jsstring);
  req_temperature : Q
}.

Definition LF : jsstring := [10%N].

Definition solveQuestion_prompt (prompt subject : jsstring) : jsstring :=
  lit "Subject: " ++ subject ++ LF ++
  lit "Question: " ++ prompt ++ LF ++ LF ++
  lit "IMPORTANT: Please structure your response in two parts. " ++ LF ++
  lit "Part 1: The direct answer or solution." ++ LF ++
  lit "Part 2: The detailed explanation, step-by-step working, and context." ++ LF ++
  lit "Separate the two parts clearly with the marker: [EXPLANATION]".

Definition solveQuestion_request (prompt subject : jsstring)
    (image : option jsstring) : Request :=
  {| req_model := lit "gemini-3-pro-preview";
     req_text := solveQuestion_prompt prompt subject;
     req_inlineData :=
       match image with
       | Some i => if truthy i then Some (nth_error (split (lit ",") i) 1)
                   else None
       | None => None
       end;
     req_temperature := (7 # 10)%Q |}.

Section SolveQuestion.

(** [String.prototype.toLowerCase], the full Unicode lower-casing of the
    platform. *)
Variable toLowerCase : jsstring -> jsstring.

(** [error.message?.toLowerCase() || ''] *)
Definition lowered_message (msg : option jsstring) : jsstring :=
  match msg with
  | Some m => toLowerCase m
  | None => []
  end.

(** The [catch] block of [solveQuestion]: what it throws. When the
    message of the caught value cannot be read and lower-cased, the
    [TypeError] of that statement leaves the block, an error object that
    is no [StudyAIError]. *)
Definition classify (e : Thrown) : Thrown :=
  match e with
  | ThrownStudyAIError err => ThrownStudyAIError err
  | ThrownUnreadable typeError => ThrownOther (Some typeError)
  | ThrownOther m =>
      let msg := lowered_message m in
      if includes (lit "fetch") msg || includes (lit "network") msg
         || includes (lit "failed to execute") msg
      then ThrownStudyAIError (mkStudyAIError network
             (lit "Network connection failed. Please check your internet."))
      else if includes (lit "deadline") msg || includes (lit "timeout") msg
              || includes (lit "exceeded") msg
      then ThrownStudyAIError (mkStudyAIError timeout
             (lit "The request took too long. The server might be busy."))
      else if includes (lit "429") msg || includes (lit "quota") msg
              || includes (lit "too many requests") msg
      then ThrownStudyAIError (mkStudyAIError server
             (lit "AI capacity reached. Please wait a minute and try again."))
      else ThrownStudyAIError (mkStudyAIError server
             (lit "The study server encountered an error. Please try again later."))
  end.

(** The body of the [try] block after the [await]: what it returns or
    throws. *)
Definition solveQuestion_try (o : GenerateContentOutcome)
  : jsstring + Thrown :=
  match o with
  | Rejected e => inr e
  | Response text finishReason =>
      if truthy_opt text
      then inl (match text with Some t => t | None => [] end)
      else
        match finishReason with
        | Some r =>
            if Js.eqb r (lit "SAFETY")
            then inr (ThrownStudyAIError (mkStudyAIError safety
                   (lit "This content was flagged by safety filters. Please try rephrasing your question.")))
            else inr (ThrownStudyAIError (mkStudyAIError server
                   (lit "The AI returned an empty response. Please try again.")))
        | None =>
            inr (ThrownStudyAIError (mkStudyAIError server
                   (lit "The AI returned an empty response. Please try again.")))
        end
  end.

(** [solveQuestion]: the requests it issued and what the promise settles
    to, the returned text or the thrown value. [onLine] is
    [navigator.onLine] at the call, [api] the outcome of the request,
    looked at only when a request was issued. *)
Definition solveQuestion (onLine : bool) (prompt subject : jsstring)
    (image : option jsstring) (api : GenerateContentOutcome)
  : list Request * (jsstring + Thrown) :=
  if negb onLine
  then ([], inr (ThrownStudyAIError (mkStudyAIError network
          (lit "You appear to be offline. Please check your internet connection."))))
  else
    let req := solveQuestion_request prompt subject image in
    match solveQuestion_try api with
    | inl t => ([req], inl t)
    | inr e => ([req], inr (classify e))
    end.

End SolveQuestion.

(* ================================================================== *)
(** * Audio pipeline: decoding (components/TutorChat.tsx) *)
(* ================================================================== *)

(** Exceptions of the platform that the decoding helpers can raise. *)
Inductive DOMError :=
| InvalidCharacterError   (* atob on malformed base64 *)
| RangeError              (* typed-array view on a misaligned buffer *)
| NotSupportedError.      (* createBuffer on unsupported arguments *)

Inductive result (A : Type) :=
| Ok (a : A)
| Throw (e : DOMError).

Arguments Ok {A} a.
Arguments Throw {A} e.

(** An element of a [Float32Array]. Every value the decoder stores is a
    16-bit integer over 2^15, which single precision holds exactly, so a
    finite element is kept as that fraction. *)
Inductive float :=
| Val (q : Q)
| NaN.

Module AudioBuffer.
Record t := mk {
  numberOfChannels : nat;
  length : nat;
  sampleRate : Z;
  channelData : list (list float)
}.
End AudioBuffer.

Abbreviation AudioBuffer := AudioBuffer.t.

(** What an output device accepts in [createBuffer]. *)
Record AudioDevice := mkAudioDevice {
  maxChannels : nat;
  rateSupported : Z -> bool
}.

Definition byte_of_code (c : char16) : Byte.byte :=
  match Byte.of_N (c mod 256) with
  | Some b => b
  | None => Byte.x00
  end.

Section DecodeBase64.

(** [atob] of the platform: the binary string, or nothing when it throws
    on malformed input. *)
Variable atob : jsstring -> option jsstring.

(** [decodeBase64]: one byte per code unit of the binary string. *)
Definition decodeBase64 (base64 : jsstring) : result (list Byte.byte) :=
  match atob base64 with
  | Some binaryString => Ok (map byte_of_code binaryString)
  | None => Throw InvalidCharacterError
  end.

End DecodeBase64.

(** A 16-bit two's complement sample from its two bytes, low byte first (the
    byte order of the typed arrays of every platform the page runs on). *)
Definition int16 (lo hi : Byte.byte) : Z :=
  let u := (Z.of_N (Byte.to_N lo) + 256 * Z.of_N (Byte.to_N hi))%Z in
  if (u <? 32768)%Z then u else (u - 65536)%Z.

(** [new Int16Array(data.buffer)]: a [RangeError] (here [None]) when the
    byte length is odd. *)
Fixpoint Int16Array (data : list Byte.byte) : option (list Z) :=
  match data with
  | [] => Some []
  | [_] => None
  | lo :: hi :: rest =>
      match Int16Array rest with
      | Some d => Some (int16 lo hi :: d)
      | None => None
      end
  end.

(** Conversion of a non-negative number to the WebIDL [unsigned long] of the
    [length] argument: the fraction is dropped, the integer wraps at 2^32. *)
Definition to_unsigned_long (x : Q) : nat :=
  Z.to_nat (Qfloor x mod 2 ^ 32).

(** [ctx.createBuffer(numChannels, frameCount, sampleRate)]. *)
Definition createBuffer (dev : AudioDevice) (numChannels : nat)
    (frameCount : Q) (sampleRate : Z) : result AudioBuffer :=
  let len := to_unsigned_long frameCount in
  if (numChannels =? 0) || (maxChannels dev <? numChannels) || (len =? 0)
     || negb (rateSupported dev sampleRate)
  then Throw NotSupportedError
  else Ok (AudioBuffer.mk numChannels len sampleRate
             (repeat (repeat (Val 0%Q) len) numChannels)).

(** [dataInt16[idx] / 32768.0]; reading past the end gives [undefined],
    which divides to [NaN]. *)
Definition sample (dataInt16 : list Z) (idx : nat) : float :=
  match nth_error dataInt16 idx with
  | Some s => Val (s # 32768)%Q
  | None => NaN
  end.

(** [channelData[i] = v]; a store past the end of a typed array is
    dropped. *)
Definition store (i : nat) (v : float) (channelData : list float)
  : list float :=
  if i <? length channelData
  then firstn i channelData ++ v :: skipn (S i) channelData
  else channelData.

(** The inner loop, [for (let i = 0; i < frameCount; i++)], for a channel:
    [iterations] is the number of integers below [frameCount]. *)
Definition fill_channel (dataInt16 : list Z) (numChannels channel : nat)
    (iterations : nat) (channelData : list float) : list float :=
  fold_left
    (fun cd i => store i (sample dataInt16 (i * numChannels + channel)) cd)
    (seq 0 iterations) channelData.

(** [decodeAudioData]. With no channel [frameCount] is [Infinity] or [NaN]
    and [createBuffer] rejects the call before any loop runs; otherwise
    [frameCount] is the fraction [dataInt16.length / numChannels]. *)
Definition decodeAudioData (data : list Byte.byte) (dev : AudioDevice)
    (sampleRate : Z) (numChannels : nat) : result AudioBuffer :=
  match Int16Array data with
  | None => Throw RangeError
  | Some dataInt16 =>
      match numChannels with
      | O => Throw NotSupportedError
      | S _ =>
          let frameCount :=
            (Z.of_nat (length dataInt16) # Pos.of_nat numChannels)%Q in
          match createBuffer dev numChannels frameCount sampleRate with
          | Throw e => Throw e
          | Ok buffer =>
              let iterations := Z.to_nat (Qceiling frameCount) in
              Ok (AudioBuffer.mk
                    (AudioBuffer.numberOfChannels buffer)
                    (AudioBuffer.length buffer)
                    (AudioBuffer.sampleRate buffer)
                    (map (fun channel =>
                            fill_channel dataInt16 numChannels channel
                              iterations
                              (nth channel (AudioBuffer.channelData buffer) []))
                         (seq 0 numChannels)))
          end
      end
  end.

(** The device of the examples: 32 channels, 8000 Hz to 96000 Hz, the range
    every implementation has to support. *)
Definition device32 : AudioDevice :=
  mkAudioDevice 32 (fun r => (8000 <=? r)%Z && (r <=? 96000)%Z).

Definition u8 (n : N) : Byte.byte := byte_of_code n.

(* ================================================================== *)
(** * The TutorChat component: state, refs and the audio context *)
(* ================================================================== *)

Inductive AudioContextState := suspended | running | closed.

(** The [AudioContext] behind [audioContextRef], with the source nodes made
    from it. A source node is named by its creation rank. [playing] are the
    nodes that were started and have neither been stopped nor run to the end
    of their buffer; [endedQueue] are the nodes whose [ended] event is
    queued and not yet dispatched. *)
Record AudioContext := mkAudioContext {
  state : AudioContextState;
  destination : AudioDevice;
  created : nat;
  playing : list nat;
  endedQueue : list nat
}.

(** The [useState] cells and the [useRef] cells of the component. *)
Record TutorChat := mkTutorChat {
  messages : list ChatMessage;
  input : jsstring;
  image : option jsstring;
  loading : bool;
  isTTSEnabled : bool;
  isSpeaking : bool;
  isPaused : bool;
  isListening : bool;
  revealedExplanations : list jsstring;
  copiedId : option jsstring;
  audioContextRef : option AudioContext;
  currentSourceRef : option nat
}.

(** [setMessages(prev => f(prev))] *)
Definition setMessages (f : list ChatMessage -> list ChatMessage)
    (st : TutorChat) : TutorChat :=
  mkTutorChat (f (messages st)) (input st) (image st) (loading st)
    (isTTSEnabled st) (isSpeaking st) (isPaused st) (isListening st)
    (revealedExplanations st) (copiedId st) (audioContextRef st)
    (currentSourceRef st).

Definition setInput (v : jsstring) (st : TutorChat) : TutorChat :=
  mkTutorChat (messages st) v (image st) (loading st) (isTTSEnabled st)
    (isSpeaking st) (isPaused st) (isListening st) (revealedExplanations st)
    (copiedId st) (audioContextRef st) (currentSourceRef st).

Definition setImage (v : option jsstring) (st : TutorChat) : TutorChat :=
  mkTutorChat (messages st) (input st) v (loading st) (isTTSEnabled st)
    (isSpeaking st) (isPaused st) (isListening st) (revealedExplanations st)
    (copiedId st) (audioContextRef st) (currentSourceRef st).

Definition setLoading (v : bool) (st : TutorChat) : TutorChat :=
  mkTutorChat (messages st) (input st) (image st) v (isTTSEnabled st)
    (isSpeaking st) (isPaused st) (isListening st) (revealedExplanations st)
    (copiedId st) (audioContextRef st) (currentSourceRef st).

Definition setIsTTSEnabled (v : bool) (st : TutorChat) : TutorChat :=
  mkTutorChat (messages st) (input st) (image st) (loading st) v
    (isSpeaking st) (isPaused st) (isListening st) (revealedExplanations st)
    (copiedId st) (audioContextRef st) (currentSourceRef st).

Definition setIsSpeaking (v : bool) (st : TutorChat) : TutorChat :=
  mkTutorChat (messages st) (input st) (image st) (loading st) (isTTSEnabled st)
    v (isPaused st) (isListening st) (revealedExplanations st)
    (copiedId st) (audioContextRef st) (currentSourceRef st).

Definition setIsPaused (v : bool) (st : TutorChat) : TutorChat :=
  mkTutorChat (messages st) (input st) (image st) (loading st) (isTTSEnabled st)
    (isSpeaking st) v (isListening st) (revealedExplanations st)
    (copiedId st) (audioContextRef st) (currentSourceRef st).

Definition setAudioContextRef (v : option AudioContext) (st : TutorChat)
  : TutorChat :=
  mkTutorChat (messages st) (input st) (image st) (loading st) (isTTSEnabled st)
    (isSpeaking st) (isPaused st) (isListening st) (revealedExplanations st)
    (copiedId st) v (currentSourceRef st).

Definition setCurrentSourceRef (v : option nat) (st : TutorChat) : TutorChat :=
  mkTutorChat (messages st) (input st) (image st) (loading st) (isTTSEnabled st)
    (isSpeaking st) (isPaused st) (isListening st) (revealedExplanations st)
    (copiedId st) (audioContextRef st) v.

(** The empty conversation of a freshly mounted component. *)
Definition mount : TutorChat :=
  mkTutorChat [] [] None false false false false false [] None None None.

(** Calls to the outside issued by a handler, in program order. *)
Inductive Effect :=
| RecognitionStop
| CallSolveQuestion (prompt : jsstring) (subject : Subject)
    (image : option jsstring)
| CallGenerateSpeech (text : jsstring)
| FocusInput
| SourceStop (source : nat)
| SourceStart (source : nat)
| ConsoleError.

Definition EXPLANATION_MARKER : jsstring := lit "[EXPLANATION]".

Definition ERROR_MODE_prefix : jsstring := lit "ERROR_MODE[".

(** The template literal of the [catch] branch of [handleSend]: the prefix,
    the error type, a closing bracket, the error text. *)
Definition ERROR_MODE_text (errorType errorText : jsstring) : jsstring :=
  ERROR_MODE_prefix ++ errorType ++ lit "]" ++ errorText.

(* ================================================================== *)
(** * Conversation controller *)
(* ================================================================== *)

(** [speakText], up to its [await]: the speech request it issues. [tts] is
    the [isTTSEnabled] of the render the calling closure belongs to. *)
Definition speakText (tts : bool) (text : jsstring) : list Effect :=
  if negb tts then []
  else [CallGenerateSpeech
          (replace EXPLANATION_MARKER (lit ". Next, the explanation: ") text)].

(** What the continuation of [handleSend] keeps from the call: the closure
    variables read after the [await]. *)
Record Pending := mkPending {
  currentInput : jsstring;
  userMessage : ChatMessage;
  tts : bool
}.

(** [handleSend] up to [await solveQuestion(...)]. [now] is [Date.now()]. *)
Definition handleSend_begin (subject : Subject) (now : N) (st : TutorChat)
  : TutorChat * list Effect * option Pending :=
  if negb (truthy (trim (input st))) && negb (truthy_opt (image st))
  then (st, [], None)
  else
    let stopListening := if isListening st then [RecognitionStop] else [] in
    let userMessage :=
      ChatMessage.mk (toString now) user (input st) (or_undefined (image st)) in
    let st := setMessages (fun prev => prev ++ [userMessage]) st in
    let currentInput := input st in
    let st := setInput [] st in
    let st := setImage None st in
    let st := setLoading true st in
    let working :=
      if isTTSEnabled st
      then speakText (isTTSEnabled st) (lit "Checking that for you...")
      else [] in
    (st,
     stopListening ++ working ++
       [CallSolveQuestion currentInput subject (ChatMessage.image userMessage)],
     Some (mkPending currentInput userMessage (isTTSEnabled st))).

(** [handleSend] after the [await]: [settled] is what the promise of
    [solveQuestion] settled to, [now] is [Date.now()] at that time, [st] the
    state the functional updates apply to. *)
Definition handleSend_resume (p : Pending) (now : N)
    (settled : jsstring + Thrown) (st : TutorChat)
  : TutorChat * list Effect :=
  match settled with
  | inl aiResponse =>
      let botMessage :=
        ChatMessage.mk (toString (now + 1)) model aiResponse None in
      let st := setMessages (fun prev => prev ++ [botMessage]) st in
      let st := setLoading false st in
      let speak :=
        if tts p && truthy aiResponse
        then speakText (tts p) (hd [] (split EXPLANATION_MARKER aiResponse))
        else [] in
      (st, speak ++ [FocusInput])
  | inr error =>
      let st := setLoading false st in
      let '(errorText, errorType) :=
        match error with
        | ThrownStudyAIError e => (message e, ErrorType_name (type e))
        | ThrownOther _ | ThrownUnreadable _ =>
            (lit "I'm sorry, I couldn't process your request right now.",
             lit "unknown")
        end in
      let botMessage :=
        ChatMessage.mk (toString (now + 1)) model
          (ERROR_MODE_text errorType errorText) None in
      let st := setMessages (fun prev => prev ++ [botMessage]) st in
      let speak := if tts p then speakText (tts p) errorText else [] in
      (st, speak ++ [FocusInput])
  end.

(** The two ways to submit: Enter in the text field calls [handleSend]; the
    Ask button calls it unless it is disabled. *)
Definition onKeyPress_Enter := handleSend_begin.

Definition Ask_disabled (st : TutorChat) : bool :=
  loading st || (negb (truthy (input st)) && negb (truthy_opt (image st))).

Definition Ask_onClick (subject : Subject) (now : N) (st : TutorChat)
  : TutorChat * list Effect * option Pending :=
  if Ask_disabled st then (st, [], None) else handleSend_begin subject now st.

(** ** Rendering of a message *)

(** The lazy group of the pattern and the closing bracket after it: the
    shortest run of characters other than line terminators that is followed
    by a closing bracket; the captured run and what follows the bracket. *)
Fixpoint lazy_to_bracket (s : jsstring) : option (jsstring * jsstring) :=
  match s with
  | [] => None
  | c :: s' =>
      if N.eqb c 93 then Some ([], s')
      else if isLineTerminator c then None
      else match lazy_to_bracket s' with
           | Some (g, rest) => Some (c :: g, rest)
           | None => None
           end
  end.

(** The greedy group at the end of the pattern: the longest run of
    characters other than line terminators. *)
Fixpoint greedy_dots (s : jsstring) : jsstring :=
  match s with
  | [] => []
  | c :: s' => if isLineTerminator c then [] else c :: greedy_dots s'
  end.

(** The pattern of the renderer, ERROR_MODE, an opening bracket, a lazy
    group of any characters, a closing bracket, a greedy group of any
    characters, tried at the start of [s]. *)
Definition ERROR_MODE_match_here (s : jsstring)
  : option (jsstring * jsstring) :=
  if startsWith ERROR_MODE_prefix s
  then match lazy_to_bracket (skipn (length ERROR_MODE_prefix) s) with
       | Some (g1, rest) => Some (g1, greedy_dots rest)
       | None => None
       end
  else None.

(** [m.text.match(pattern)]: the two groups of the leftmost match, or
    [null]. *)
Fixpoint ERROR_MODE_match (s : jsstring) : option (jsstring * jsstring) :=
  match ERROR_MODE_match_here s with
  | Some r => Some r
  | None =>
      match s with
      | [] => None
      | _ :: s' => ERROR_MODE_match s'
      end
  end.

(** What the body of [messages.map] computes for a message. *)
Record MessageView := mkMessageView {
  isError : bool;
  errorType : jsstring;
  displayContent : jsstring;
  answer : option jsstring;
  explanation : option jsstring
}.

Definition render (m : ChatMessage) : MessageView :=
  let isError := startsWith ERROR_MODE_prefix (ChatMessage.text m) in
  let '(errorType, displayContent) :=
    if isError
    then match ERROR_MODE_match (ChatMessage.text m) with
         | Some (g1, g2) => (g1, g2)
         | None => (lit "unknown", ChatMessage.text m)
         end
    else (lit "unknown", ChatMessage.text m) in
  let parts := split EXPLANATION_MARKER displayContent in
  mkMessageView isError errorType displayContent
    (nth_error parts 0) (nth_error parts 1).

(** [onClick] of the "Try Re-sending" button of message [m], which is
    rendered when [isError] holds of [m]. *)
Definition retry_onClick (m : ChatMessage) (st : TutorChat)
  : TutorChat * list Effect :=
  let lastUserMsg :=
    find (fun msg => Role_eqb (ChatMessage.role msg) user)
         (rev (messages st)) in
  match lastUserMsg with
  | Some lastUserMsg =>
      let st :=
        setMessages
          (fun prev =>
             filter (fun msg =>
                       negb (Js.eqb (ChatMessage.id msg) (ChatMessage.id m)))
                    prev) st in
      let st := setInput (ChatMessage.text lastUserMsg) st in
      let st := setImage (or_undefined (ChatMessage.image lastUserMsg)) st in
      (st, [])
  | None => (st, [])
  end.

(* ================================================================== *)
(** * Audio pipeline: playback *)
(* ================================================================== *)

Definition setState (v : AudioContextState) (ctx : AudioContext)
  : AudioContext :=
  mkAudioContext v (destination ctx) (created ctx) (playing ctx)
    (endedQueue ctx).

Definition remove_source (source : nat) (l : list nat) : list nat :=
  filter (fun x => negb (x =? source)) l.

(** [source.stop()] on a started node: a node that is playing stops and its
    [ended] event is queued; on a node that already stopped nothing
    happens. *)
Definition source_stop (source : nat) (ctx : AudioContext) : AudioContext :=
  if existsb (Nat.eqb source) (playing ctx)
  then mkAudioContext (state ctx) (destination ctx) (created ctx)
         (remove_source source (playing ctx)) (endedQueue ctx ++ [source])
  else ctx.

(** [ctx.createBufferSource()]: the new node takes the next rank. *)
Definition createBufferSource (ctx : AudioContext) : nat * AudioContext :=
  (created ctx,
   mkAudioContext (state ctx) (destination ctx) (S (created ctx))
     (playing ctx) (endedQueue ctx)).

(** [source.start(0)]. *)
Definition source_start (source : nat) (ctx : AudioContext) : AudioContext :=
  mkAudioContext (state ctx) (destination ctx) (created ctx)
    (playing ctx ++ [source]) (endedQueue ctx).

Section PlayAudio.

Variable atob : jsstring -> option jsstring.

(** What [new AudioContext({ sampleRate: 24000 })] gives. *)
Variable newAudioContext : AudioContext.

(** The [catch] block of [playAudio]. *)
Definition playAudio_catch (st : TutorChat) : TutorChat * list Effect :=
  (setIsPaused false (setIsSpeaking false st), [ConsoleError]).

(** [playAudio]. Its two [await]s are passed in one go: the statements
    from the test of [currentSourceRef.current] to [source.start(0)] come
    after the last of them and run without interruption in any case. *)
Definition playAudio (base64Audio : jsstring) (st : TutorChat)
  : TutorChat * list Effect :=
  let ctx :=
    match audioContextRef st with
    | Some c => c
    | None => newAudioContext
    end in
  let ctx :=
    match state ctx with
    | suspended => setState running ctx
    | _ => ctx
    end in
  let st := setAudioContextRef (Some ctx) st in
  let st := setIsPaused false st in
  match decodeBase64 atob base64Audio with
  | Throw _ => playAudio_catch st
  | Ok audioData =>
      match decodeAudioData audioData (destination ctx) 24000 1 with
      | Throw _ => playAudio_catch st
      | Ok audioBuffer =>
          let '(ctx, stopped) :=
            match currentSourceRef st with
            | Some current => (source_stop current ctx, [SourceStop current])
            | None => (ctx, [])
            end in
          let '(source, ctx) := createBufferSource ctx in
          let st := setIsSpeaking true st in
          let st := setCurrentSourceRef (Some source) st in
          let ctx := source_start source ctx in
          (setAudioContextRef (Some ctx) st, stopped ++ [SourceStart source])
      end
  end.

End PlayAudio.

(** [source.onended], the same closure for every node: run when the queued
    [ended] event of a node is dispatched. *)
Definition onended (st : TutorChat) : TutorChat :=
  let st := setIsSpeaking false st in
  let st := setIsPaused false st in
  setCurrentSourceRef None st.

(** The event loop dispatches the [ended] event of [source], if queued. *)
Definition dispatch_ended (source : nat) (st : TutorChat) : TutorChat :=
  match audioContextRef st with
  | Some ctx =>
      if existsb (Nat.eqb source) (endedQueue ctx)
      then
        let ctx :=
          mkAudioContext (state ctx) (destination ctx) (created ctx)
            (playing ctx) (remove_source source (endedQueue ctx)) in
        onended (setAudioContextRef (Some ctx) st)
      else st
  | None => st
  end.

(** [toggleTTS]. *)
Definition toggleTTS (st : TutorChat) : TutorChat * list Effect :=
  let '(st, stopped) :=
    match isTTSEnabled st, currentSourceRef st, audioContextRef st with
    | true, Some current, Some ctx =>
        (setAudioContextRef (Some (source_stop current ctx)) st,
         [SourceStop current])
    | _, _, _ => (st, [])
    end in
  let st := setIsTTSEnabled (negb (isTTSEnabled st)) st in
  (setIsPaused false st, stopped).

(** The handles that are live: the nodes of the context that are playing. *)
Definition live_handles (st : TutorChat) : list nat :=
  match audioContextRef st with
  | Some ctx => playing ctx
  | None => []
  end.

(** The whole of [handleSend] when nothing else happens between the call and
    the settlement of [solveQuestion]: [onLine] and [api] are what
    [solveQuestion] meets, [now] and [later] the two readings of the
    clock. *)
Definition handleSend (toLowerCase : jsstring -> jsstring)
    (subject : Subject) (onLine : bool) (api : GenerateContentOutcome)
    (now later : N) (st : TutorChat) : TutorChat * list Effect :=
  match handleSend_begin subject now st with
  | (st, effects, Some p) =>
      let r :=
        solveQuestion toLowerCase onLine (currentInput p)
          (subject_name subject) (ChatMessage.image (userMessage p)) api in
      let '(st, effects') := handleSend_resume p later (snd r) st in
      (st, effects ++ effects')
  | (st, effects, None) => (st, effects)
  end.

(* ================================================================== *)
(** * Instances of the platform functions for the examples *)
(* ================================================================== *)

(** Lower-casing of the ASCII letters. *)
Definition toLowerCase_ascii (s : jsstring) : jsstring :=
  map (fun c => if (N.leb 65 c && N.leb c 90)%N then (c + 32)%N else c) s.

Definition isAsciiWhitespace (c : char16) : bool :=
  (N.eqb c 9 || N.eqb c 10 || N.eqb c 12 || N.eqb c 13 || N.eqb c 32)%N.

(** The value of a character of the base64 alphabet. *)
Definition base64_value (c : char16) : option N :=
  if (N.leb 65 c && N.leb c 90)%N then Some (c - 65)%N
  else if (N.leb 97 c && N.leb c 122)%N then Some (c - 71)%N
  else if (N.leb 48 c && N.leb c 57)%N then Some (c + 4)%N
  else if N.eqb c 43 then Some 62%N
  else if N.eqb c 47 then Some 63%N
  else None.

Fixpoint base64_values (s : jsstring) : option (list N) :=
  match s with
  | [] => Some []
  | c :: s' =>
      match base64_value c, base64_values s' with
      | Some v, Some vs => Some (v :: vs)
      | _, _ => None
      end
  end.

(** Groups of four 6-bit values to three bytes; of a last group of three or
    two values the bits that do not fill a byte are dropped. *)
Fixpoint base64_bytes (v : list N) : jsstring :=
  match v with
  | v1 :: v2 :: v3 :: v4 :: rest =>
      let n := (v1 * 262144 + v2 * 4096 + v3 * 64 + v4)%N in
      (n / 65536)%N :: ((n / 256) mod 256)%N :: (n mod 256)%N
        :: base64_bytes rest
  | [v1; v2; v3] =>
      let n := ((v1 * 4096 + v2 * 64 + v3) / 4)%N in
      [(n / 256)%N; (n mod 256)%N]
  | [v1; v2] => [((v1 * 64 + v2) / 16)%N]
  | _ => []
  end.

Definition strip_padding (s : jsstring) : jsstring :=
  if length s mod 4 =? 0
  then match rev s with
       | 61%N :: 61%N :: r => rev r
       | 61%N :: r => rev r
       | _ => s
       end
  else s.

(** [atob] as HTML specifies it (forgiving base64 decoding). *)
Definition atob_html (data : jsstring) : option jsstring :=
  let data := filter (fun c => negb (isAsciiWhitespace c)) data in
  let data := strip_padding data in
  if length data mod 4 =? 1 then None
  else match base64_values data with
       | Some v => Some (base64_bytes v)
       | None => None
       end.

(** A context as the constructor makes it on the device of the examples. *)
Definition context32 : AudioContext :=
  mkAudioContext running device32 0 [] [].

(* ================================================================== *)
(** * Notions used in the statements *)
(* ================================================================== *)

(** The text contains no line terminator. *)
Definition singleLine (t : jsstring) : bool :=
  forallb (fun c => negb (isLineTerminator c)) t.


Definition mentions_timeout (msg : jsstring) : bool :=
  includes (lit "deadline") msg || includes (lit "timeout") msg
  || includes (lit "exceeded") msg.



(** The type of the [StudyAIError] a call failed with, if it failed with
    one. *)
Definition failure_type (r : jsstring + Thrown) : option ErrorType :=
  match r with
  | inr (ThrownStudyAIError e) => Some (type e)
  | _ => None
  end.


(** The clip decodes: [decodeBase64] and then [decodeAudioData], with the
    arguments [playAudio] passes, both return. *)
Definition playable (atob : jsstring -> option jsstring) (dev : AudioDevice)
    (base64Audio : jsstring) : Prop :=
  exists audioData audioBuffer,
    decodeBase64 atob base64Audio = Ok audioData /\
    decodeAudioData audioData dev 24000 1 = Ok audioBuffer.

(** A context as the constructor makes it: no source node yet. *)
Definition fresh_context (ctx : AudioContext) : Prop :=
  created ctx = 0 /\ playing ctx = [] /\ endedQueue ctx = [].

(** [x] has the id of [m]. *)
Definition same_id (m x : ChatMessage) : bool :=
  Js.eqb (ChatMessage.id x) (ChatMessage.id m).

Definition is_solveQuestion_call (e : Effect) : bool :=
  match e with
  | CallSolveQuestion _ _ _ => true
  | _ => false
  end.

(* ================================================================== *)
(** * The TutorChat component: the other handlers *)
(* ================================================================== *)

Definition setIsListening (v : bool) (st : TutorChat) : TutorChat :=
  mkTutorChat (messages st) (input st) (image st) (loading st) (isTTSEnabled st)
    (isSpeaking st) (isPaused st) v (revealedExplanations st)
    (copiedId st) (audioContextRef st) (currentSourceRef st).

(** [setRevealedExplanations(prev => f(prev))] *)
Definition setRevealedExplanations (f : list jsstring -> list jsstring)
    (st : TutorChat) : TutorChat :=
  mkTutorChat (messages st) (input st) (image st) (loading st) (isTTSEnabled st)
    (isSpeaking st) (isPaused st) (isListening st)
    (f (revealedExplanations st))
    (copiedId st) (audioContextRef st) (currentSourceRef st).

Definition setCopiedId (v : option jsstring) (st : TutorChat) : TutorChat :=
  mkTutorChat (messages st) (input st) (image st) (loading st) (isTTSEnabled st)
    (isSpeaking st) (isPaused st) (isListening st) (revealedExplanations st)
    v (audioContextRef st) (currentSourceRef st).

(** ** Revealing an explanation *)

(** [Set.prototype.has] on a set of strings, the elements in insertion
    order. *)
Definition Set_has (x : jsstring) (s : list jsstring) : bool :=
  existsb (Js.eqb x) s.

(** [Set.prototype.add]. *)
Definition Set_add (x : jsstring) (s : list jsstring) : list jsstring :=
  if Set_has x s then s else s ++ [x].

(** [handleReveal]. *)
Definition handleReveal (msgId explanationText : jsstring) (st : TutorChat)
  : TutorChat * list Effect :=
  let st' := setRevealedExplanations (fun prev => Set_add msgId prev) st in
  (st',
   if isTTSEnabled st
   then speakText (isTTSEnabled st)
          (lit "Here is the explanation: " ++ explanationText)
   else []).

(** [revealedExplanations.has(m.id)] of the renderer. *)
Definition isRevealed (m : ChatMessage) (st : TutorChat) : bool :=
  Set_has (ChatMessage.id m) (revealedExplanations st).

(** ** Copying an answer *)

(** The text [handleCopy] hands to [navigator.clipboard.writeText]. *)
Definition handleCopy_answer (text : jsstring) : jsstring :=
  trim (hd [] (split EXPLANATION_MARKER text)).

(** The [then] callback of [handleCopy], run when the clipboard has taken
    the text: the delay of the timer it sets, in milliseconds. *)
Definition handleCopy_written (msgId : jsstring) (st : TutorChat)
  : TutorChat * N :=
  (setCopiedId (Some msgId) st, 2000%N).

(** The callback of that timer. *)
Definition handleCopy_timeout (st : TutorChat) : TutorChat :=
  setCopiedId None st.

(** ** Speech synthesis *)

(** What the speech request gives back to the [await] of [generateSpeech]:
    a response, of which the code follows the optional chain to the inline
    data of the first part of the first candidate, or a thrown value. *)
Inductive SpeechOutcome :=
| SpeechResponse (data : option jsstring)
| SpeechRejected.

(** [generateSpeech] (services/geminiService.ts), after its request. *)
Definition generateSpeech (o : SpeechOutcome) : option jsstring :=
  match o with
  | SpeechResponse data => or_undefined data
  | SpeechRejected => None
  end.

Section SpeakText.

Variable atob : jsstring -> option jsstring.
Variable newAudioContext : AudioContext.

(** [speakText] after [await generateSpeech(cleanText)]. *)
Definition speakText_resume (speechData : option jsstring) (st : TutorChat)
  : TutorChat * list Effect :=
  match speechData with
  | Some d => if truthy d then playAudio atob newAudioContext d st
              else (st, [])
  | None => (st, [])
  end.

End SpeakText.

(** ** Pause and resume *)

(** [togglePauseResume], its [await] passed in one go. *)
Definition togglePauseResume (st : TutorChat) : TutorChat :=
  match audioContextRef st with
  | None => st
  | Some ctx =>
      if negb (isSpeaking st) then st
      else
        match state ctx with
        | running =>
            setIsPaused true
              (setAudioContextRef (Some (setState suspended ctx)) st)
        | suspended =>
            setIsPaused false
              (setAudioContextRef (Some (setState running ctx)) st)
        | closed => st
        end
  end.

(** ** Speech capture *)

(** Calls of the speech capture handlers to the outside. *)
Inductive RecognitionCall :=
| alert_not_supported
| recognition_start
| recognition_stop.

(** [toggleListening]. [supported] tells whether the browser has a
    [SpeechRecognition] constructor, that is whether [recognitionRef] was
    set at mount. *)
Definition toggleListening (supported : bool) (st : TutorChat)
  : TutorChat * list RecognitionCall :=
  if negb supported then (st, [alert_not_supported])
  else if isListening st then (st, [recognition_stop])
  else (setIsListening true (setInput [] st), [recognition_start]).

(** A recognition event: [resultIndex] and, for each result, the
    transcript of its first alternative. *)
Record RecognitionEvent := mkRecognitionEvent {
  resultIndex : nat;
  results : list jsstring
}.

(** [recognition.onresult]. *)
Definition onresult (event : RecognitionEvent) (st : TutorChat) : TutorChat :=
  let transcript :=
    fold_left (fun t r => t ++ r) (skipn (resultIndex event) (results event))
      [] in
  setInput transcript st.

(** [recognition.onend], and [recognition.onerror] but for its log. *)
Definition onend (st : TutorChat) : TutorChat := setIsListening false st.

(** ** The events that move the audio state *)

(** The platform: a playing node reaches the end of its buffer and its
    [ended] event is queued. *)
Definition source_runs_out (source : nat) (st : TutorChat) : TutorChat :=
  match audioContextRef st with
  | Some ctx => setAudioContextRef (Some (source_stop source ctx)) st
  | None => st
  end.

Inductive AudioEvent :=
| PlayClip (base64Audio : jsstring)
| RunsOut (source : nat)
| EndedEvent (source : nat)
| ToggleTTS
| TogglePauseResume.

Section AudioEvents.

Variable atob : jsstring -> option jsstring.
Variable newAudioContext : AudioContext.

Definition audio_step (st : TutorChat) (ev : AudioEvent) : TutorChat :=
  match ev with
  | PlayClip base64Audio => fst (playAudio atob newAudioContext base64Audio st)
  | RunsOut source => source_runs_out source st
  | EndedEvent source => dispatch_ended source st
  | ToggleTTS => fst (toggleTTS st)
  | TogglePauseResume => togglePauseResume st
  end.

End AudioEvents.

(** What holds of a context in every state the events lead to: the nodes
    that play or wait for their [ended] event were created, and no node
    plays twice. *)
Definition context_wf (ctx : AudioContext) : Prop :=
  Forall (fun x => x < created ctx) (playing ctx) /\
  Forall (fun x => x < created ctx) (endedQueue ctx) /\
  NoDup (playing ctx).

(** What holds of the audio cells in every such state: the context is as
    above, the node in [currentSourceRef] plays or waits for its [ended]
    event, and [isPaused] is set only on a suspended context. *)
Definition audio_wf (st : TutorChat) : Prop :=
  match audioContextRef st with
  | None => currentSourceRef st = None /\ isPaused st = false
  | Some ctx =>
      context_wf ctx /\
      (forall current, currentSourceRef st = Some current ->
         In current (playing ctx) \/ In current (endedQueue ctx)) /\
      (isPaused st = true -> state ctx = suspended)
  end.

(** A stored sample is a number from -1 up to, not including, 1. *)
Definition unit_range (x : float) : Prop :=
  match x with
  | Val q => (-1 <= q)%Q /\ (q < 1)%Q
  | NaN => False
  end.

(* ================================================================== *)
(** * Past papers (services/geminiService.ts, QuestionDownloader.tsx) *)
(* ================================================================== *)

Definition DQUOTE : jsstring := [34%N].

Definition generatePastPaper_prompt (subject year : jsstring) : jsstring :=
  lit "Generate a COMPREHENSIVE Examination Booklet for BECE " ++
  subject ++ lit " for the year " ++ year ++ lit ". " ++ LF ++
  lit "      This is a high-stakes simulation for student revision." ++
  LF ++ lit "      " ++ LF ++
  lit "      The document MUST include the following sections in order:" ++
  LF ++
  lit "      1. INSTRUCTIONS TO CANDIDATES: Standard examination header." ++
  LF ++
  lit "      2. SECTION A (OBJECTIVES): 30 Multiple Choice Questions (A-D) covering the " ++
  year ++ lit " syllabus." ++ LF ++
  lit "      3. SECTION B (THEORY): 6 detailed questions with parts (a, b, c) as per WAEC format." ++
  LF ++
  lit "      4. SECTION A ANSWER KEY: A simple list of correct letters (1-30)." ++
  LF ++
  lit "      5. SECTION B MARKING SCHEME: Detailed point-by-point marking guide and model answers for all theory questions." ++
  LF ++
  lit "      6. CHIEF EXAMINER'S REMARKS: For each section, provide specific professional insights on:" ++
  LF ++ lit "         - Common mistakes students made in " ++ year ++
  lit "." ++ LF ++
  lit "         - Strengths observed in candidate answers." ++ LF ++
  lit "         - Recommendations for candidates to score higher marks." ++
  LF ++ lit "      " ++ LF ++
  lit "      Format with bold headers, numbered lists, and professional spacing. The remarks should be at the very end as a " ++
  DQUOTE ++ lit "Post-Exam Review" ++ DQUOTE ++ lit " section.".

(** [generatePastPaper]: the request it issues and the text it returns. *)
Definition generatePastPaper (subject year : jsstring)
    (api : GenerateContentOutcome) : list Request * jsstring :=
  ([mkRequest (lit "gemini-3-pro-preview")
      (generatePastPaper_prompt subject year) None (2 # 10)%Q],
   match api with
   | Response text _ =>
       if truthy_opt text
       then match text with Some t => t | None => [] end
       else lit "Failed to generate full past paper."
   | Rejected _ =>
       lit "Error: Could not retrieve the full question set for this year. Please try again."
   end).

(** A plain object used as a map from strings to strings: the own
    properties in insertion order. *)
Definition obj_get (key : jsstring) (obj : list (jsstring * jsstring))
  : option jsstring :=
  match find (fun kv => Js.eqb (fst kv) key) obj with
  | Some kv => Some (snd kv)
  | None => None
  end.

(** The object spread with a computed key: an own property keeps its place
    and takes the value, a new one goes last. *)
Definition obj_set (key v : jsstring) (obj : list (jsstring * jsstring))
  : list (jsstring * jsstring) :=
  if existsb (fun kv => Js.eqb (fst kv) key) obj
  then map (fun kv => if Js.eqb (fst kv) key then (key, v) else kv) obj
  else obj ++ [(key, v)].

(** A value in a template literal. *)
Definition template (v : option jsstring) : jsstring :=
  match v with
  | Some s => s
  | None => lit "undefined"
  end.

(** [YEARS]: the fifteen years from 2024 down. *)
Definition YEARS : list jsstring :=
  map (fun i => toString (2024 - N.of_nat i)) (seq 0 15).

(** [SUBJECTS] (constants.ts), the ids. *)
Definition SUBJECTS : list Subject :=
  [Mathematics; EnglishLanguage; IntegratedScience; SocialStudies;
   ICT; RME; French].

Module QuestionDownloader.

(** The [useState] cells of the component. [selectedSubject] and
    [selectedYear] hold what the handlers store, strings or [undefined]. *)
Record t := mk {
  selectedSubject : option jsstring;
  selectedYear : option jsstring;
  isGenerating : bool;
  activeReadingSection : jsstring;
  isFullscreen : bool;
  paperCache : list (jsstring * jsstring)
}.

Definition mount : t :=
  mk (Some (lit "Mathematics")) (nth_error YEARS 0) false (lit "top") false [].

Definition setSelectedSubject (v : option jsstring) (st : t) : t :=
  mk v (selectedYear st) (isGenerating st) (activeReadingSection st)
    (isFullscreen st) (paperCache st).

Definition setSelectedYear (v : option jsstring) (st : t) : t :=
  mk (selectedSubject st) v (isGenerating st) (activeReadingSection st)
    (isFullscreen st) (paperCache st).

Definition setIsGenerating (v : bool) (st : t) : t :=
  mk (selectedSubject st) (selectedYear st) v (activeReadingSection st)
    (isFullscreen st) (paperCache st).

Definition setActiveReadingSection (v : jsstring) (st : t) : t :=
  mk (selectedSubject st) (selectedYear st) (isGenerating st) v
    (isFullscreen st) (paperCache st).

(** [setPaperCache(prev => f(prev))] *)
Definition setPaperCache
    (f : list (jsstring * jsstring) -> list (jsstring * jsstring)) (st : t)
  : t :=
  mk (selectedSubject st) (selectedYear st) (isGenerating st)
    (activeReadingSection st) (isFullscreen st) (f (paperCache st)).

Definition paperKey (subject year : option jsstring) : jsstring :=
  template subject ++ lit "-" ++ template year.

Definition currentPaperKey (st : t) : jsstring :=
  paperKey (selectedSubject st) (selectedYear st).

Definition paperContent (st : t) : option jsstring :=
  obj_get (currentPaperKey st) (paperCache st).

(** What the continuation of [handleGenerate] keeps: the key, and the
    arguments of the call. *)
Record Pending := mkPending {
  key : jsstring;
  subject : option jsstring;
  year : jsstring
}.

(** [handleGenerate] up to [await generatePastPaper(...)]. *)
Definition handleGenerate_begin (year : jsstring) (st : t)
  : t * option Pending :=
  let key := paperKey (selectedSubject st) (Some year) in
  let cached := truthy_opt (obj_get key (paperCache st)) in
  let st := setSelectedYear (Some year) st in
  if cached
  then (setActiveReadingSection (lit "top") st, None)
  else (setIsGenerating true st,
        Some (mkPending key (selectedSubject st) year)).

(** [handleGenerate] after the [await]. *)
Definition handleGenerate_resume (p : Pending) (settled : jsstring + Thrown)
    (st : t) : t :=
  let st :=
    match settled with
    | inl content =>
        let st := setPaperCache (fun prev => obj_set (key p) content prev) st in
        setActiveReadingSection (lit "top") st
    | inr _ => st
    end in
  setIsGenerating false st.

(** The whole of [handleGenerate] with nothing in between: the requests it
    issued and the state it leaves. *)
Definition handleGenerate (api : GenerateContentOutcome) (year : jsstring)
    (st : t) : list Request * t :=
  match handleGenerate_begin year st with
  | (st, Some p) =>
      let r := generatePastPaper (template (subject p))
                 (QuestionDownloader.year p) api in
      (fst r, handleGenerate_resume p (inl (snd r)) st)
  | (st, None) => ([], st)
  end.

(** [onClick] of a year button, which is disabled while a paper is being
    generated. *)
Definition year_onClick (api : GenerateContentOutcome) (year : jsstring)
    (st : t) : list Request * t :=
  if isGenerating st then ([], st) else handleGenerate api year st.

(** [onClick] of a subject button, which is never disabled. *)
Definition subject_onClick (s : Subject) (st : t) : t :=
  setSelectedSubject (Some (subject_name s)) st.

(** The keys of the "Recently Viewed" list:
    [Object.keys(paperCache).slice(-3)]. *)
Definition recentlyViewed (st : t) : list jsstring :=
  let keys := map fst (paperCache st) in
  skipn (length keys - 3) keys.

(** [onClick] of a "Recently Viewed" button. *)
Definition recent_onClick (key : jsstring) (st : t) : t :=
  let parts := split (lit "-") key in
  let subj := nth_error parts 0 in
  let year := nth_error parts 1 in
  setSelectedYear year (setSelectedSubject subj st).

End QuestionDownloader.

(* ================================================================== *)
(** * Navigation (App.tsx) *)
(* ================================================================== *)

Module App.

Inductive Tab := study | mock | progress.

Record t := mk {
  selectedSubject : option Subject;
  activeTab : Tab
}.

Definition mount : t := mk None study.

(** The controls of the page. *)
Inductive Control :=
| Logo
| TabButton (tab : Tab)
| Card (id : Subject)
| BrowsePastPapers
| Back.

(** What is on the page: the subject cards and the banner button when the
    study tab shows no subject, the chat with its back button when it shows
    one. *)
Definition TutorChat_mounted (st : t) : bool :=
  match activeTab st, selectedSubject st with
  | study, Some _ => true
  | _, _ => false
  end.

Definition rendered (c : Control) (st : t) : bool :=
  match c with
  | Logo | TabButton _ => true
  | Card _ | BrowsePastPapers =>
      match activeTab st, selectedSubject st with
      | study, None => true
      | _, _ => false
      end
  | Back => TutorChat_mounted st
  end.

(** The [onClick] handlers. *)
Definition onClick (c : Control) (st : t) : t :=
  match c with
  | Logo => mk None study
  | TabButton tab =>
      match tab with
      | study => mk (selectedSubject st) study
      | _ => mk None tab
      end
  | Card id => mk (Some id) (activeTab st)
  | BrowsePastPapers => mk (selectedSubject st) mock
  | Back => mk None (activeTab st)
  end.

(** A click reaches its handler when the control is on the page. *)
Definition click (st : t) (c : Control) : t :=
  if rendered c st then onClick c st else st.

End App.

(** The cells of the conversation are the same in two states: the
    transcript, the input field, the pending image, the in-flight flag, the
    listening flag, the revealed set and the copied id. *)
Definition same_conversation (st st' : TutorChat) : Prop :=
  messages st' = messages st /\ input st' = input st /\
  image st' = image st /\ loading st' = loading st /\
  isListening st' = isListening st /\
  revealedExplanations st' = revealedExplanations st /\
  copiedId st' = copiedId st.

(** The context [playAudio] works on: the one of the ref, or the new one. *)
Definition context_in_use (newAudioContext : AudioContext) (st : TutorChat)
  : AudioContext :=
  match audioContextRef st with
  | Some ctx => ctx
  | None => newAudioContext
  end.

(** The context of the examples after a first playback: source 0 plays. *)
Definition context32_playing0 : AudioContext :=
  mkAudioContext running device32 1 [0] [].

(* ================================================================== *)
(** * The embedding on small inputs *)
(* ================================================================== *)

Example split_two_parts :
  split (lit "[X]") (lit "ab[X]cd") = [lit "ab"; lit "cd"].
Proof. reflexivity. Qed.

Example split_three_parts :
  split (lit "[X]") (lit "[X]ab[X]") = [[]; lit "ab"; []].
Proof. reflexivity. Qed.

Example split_empty_string : split (lit ",") [] = [[]].
Proof. reflexivity. Qed.

Example trim_spaces : trim (lit "  a b ") = lit "a b".
Proof. reflexivity. Qed.

Example toString_time : toString 1700 = lit "1700".
Proof. reflexivity. Qed.

Example decode_mono :
  decodeAudioData [u8 0; u8 64; u8 0; u8 128] device32 24000 1
  = Ok (AudioBuffer.mk 1 2 24000 [[Val (16384 # 32768)%Q; Val (-32768 # 32768)%Q]]).
Proof. reflexivity. Qed.

Example decode_stereo_truncates :
  decodeAudioData [u8 1; u8 0; u8 2; u8 0; u8 3; u8 0] device32 24000 2
  = Ok (AudioBuffer.mk 2 1 24000 [[Val (1 # 32768)%Q]; [Val (2 # 32768)%Q]]).
Proof. reflexivity. Qed.

Example atob_hello : atob_html (lit "aGVsbG8=") = Some (lit "hello").
Proof. reflexivity. Qed.

Example atob_malformed : atob_html (lit "a*b") = None.
Proof. reflexivity. Qed.

Example decode_empty : decodeAudioData [] device32 24000 1 = Throw NotSupportedError.
Proof. reflexivity. Qed.

Example decode_odd : decodeAudioData [u8 1; u8 0; u8 2] device32 24000 1 = Throw RangeError.
Proof. reflexivity. Qed.

(* ================================================================== *)
(** * Strings: prefixes, occurrences and pieces *)
(* ================================================================== *)

Section StringFacts.

Lemma startsWith_iff (p s : jsstring) :
  startsWith p s = true <-> exists r, s = p ++ r.
Proof.
  revert s; induction p as [|c p IH]; intros s; simpl.
  - split; [intros _; now exists s | reflexivity].
  - destruct s as [|d s].
    + split; [discriminate | intros [r Hr]; discriminate].
    + rewrite andb_true_iff, N.eqb_eq, IH. split.
      * intros [-> [r ->]]. now exists r.
      * intros [r Hr]. injection Hr as -> ->. split; [reflexivity | now exists r].
Qed.

Lemma startsWith_app (p s : jsstring) : startsWith p (p ++ s) = true.
Proof. apply startsWith_iff. now exists s. Qed.

Lemma includes_cons_false (p : jsstring) (c : char16) (s : jsstring) :
  includes p (c :: s) = false ->
  startsWith p (c :: s) = false /\ includes p s = false.
Proof. simpl includes. intros H. now apply orb_false_iff in H. Qed.

(** A prefix of a concatenation lies within the first part or runs over
    its end. *)
Lemma startsWith_app_inv (p x y : jsstring) :
  startsWith p (x ++ y) = true ->
  startsWith p x = true \/ exists q, p = x ++ q /\ startsWith q y = true.
Proof.
  revert x; induction p as [|c p IH]; intros x H.
  - now left.
  - destruct x as [|d x].
    + right. now exists (c :: p).
    + simpl in H. apply andb_true_iff in H as [Hc Hp].
      destruct (IH _ Hp) as [Hin | [q [-> Hq]]].
      * left. simpl. now rewrite Hc.
      * right. exists q. apply N.eqb_eq in Hc. subst d. now split.
Qed.

Variable c0 : char16.
Variable sep' : jsstring.

(** The separators of this section start with a code unit that does not
    occur in them again, like the explanation marker. *)
Hypothesis c0_fresh : ~ In c0 sep'.

Let sep := c0 :: sep'.

Lemma split_go_skip (acc x y : jsstring) :
  split_go sep (length x) acc (x ++ y) = split_go sep 0 acc y.
Proof.
  induction x as [|d x IH]; simpl.
  - destruct y; reflexivity.
  - exact IH.
Qed.

Lemma split_go_absent (acc s : jsstring) :
  includes sep s = false -> split_go sep 0 acc s = [rev acc ++ s].
Proof.
  revert acc; induction s as [|d s IH]; intros acc H.
  - simpl. now rewrite app_nil_r.
  - apply includes_cons_false in H as [H1 H2].
    cbn [split_go]. rewrite H1, (IH _ H2). simpl.
    now rewrite <- app_assoc.
Qed.

Lemma no_early_occurrence (x y : jsstring) :
  includes sep x = false -> x <> [] ->
  startsWith sep (x ++ sep ++ y) = false.
Proof.
  intros Hx Hne. destruct x as [|d x]; [congruence|].
  apply includes_cons_false in Hx as [Hx _].
  destruct (startsWith sep ((d :: x) ++ sep ++ y)) eqn:E; [|reflexivity].
  apply startsWith_app_inv in E as [E | [q [Hq E]]]; [congruence|].
  exfalso. unfold sep in Hq. injection Hq as <- Hq.
  destruct q as [|e q].
  - rewrite app_nil_r in Hq. subst x.
    simpl in Hx. rewrite N.eqb_refl in Hx. simpl in Hx.
    assert (startsWith sep' sep' = true) as Hs
      by (apply startsWith_iff; exists []; now rewrite app_nil_r).
    congruence.
  - simpl in E. apply andb_true_iff in E as [E _]. apply N.eqb_eq in E.
    subst e. apply c0_fresh. rewrite Hq. apply in_or_app. right. now left.
Qed.

Lemma split_go_first (acc x y : jsstring) :
  includes sep x = false ->
  split_go sep 0 acc (x ++ sep ++ y) = (rev acc ++ x) :: split_go sep 0 [] y.
Proof.
  revert acc; induction x as [|d x IH]; intros acc Hx.
  - rewrite app_nil_r. cbn [app]. unfold sep at 2. cbn [app split_go].
    change (c0 :: sep' ++ y) with (sep ++ y) at 1.
    rewrite startsWith_app. unfold sep at 2. cbn [length].
    rewrite Nat.sub_succ, Nat.sub_0_r. now rewrite split_go_skip.
  - assert (H := no_early_occurrence (d :: x) y Hx ltac:(discriminate)).
    apply includes_cons_false in Hx as [_ Hx].
    cbn [app split_go] in *. rewrite H, (IH _ Hx). simpl.
    now rewrite <- app_assoc.
Qed.

(** The first piece extends what was accumulated. *)
Lemma split_go_head (acc s : jsstring) :
  exists piece rest, split_go sep 0 acc s = (rev acc ++ piece) :: rest.
Proof.
  revert acc; induction s as [|d s IH]; intros acc.
  - exists [], []. simpl. now rewrite app_nil_r.
  - cbn [split_go]. destruct (startsWith sep (d :: s)).
    + exists [], (split_go sep (length sep - 1) [] s). now rewrite app_nil_r.
    + destruct (IH (d :: acc)) as [piece [rest ->]].
      exists (d :: piece), rest. simpl. now rewrite <- app_assoc.
Qed.

End StringFacts.

(* ================================================================== *)
(** * The two-part answer encoding *)
(* ================================================================== *)

Lemma EXPLANATION_MARKER_unfold :
  EXPLANATION_MARKER = 91%N :: lit "EXPLANATION]".
Proof. reflexivity. Qed.

Lemma bracket_fresh : ~ In 91%N (lit "EXPLANATION]").
Proof. cbv. intuition discriminate. Qed.

Lemma split_marker_absent (s : jsstring) :
  includes EXPLANATION_MARKER s = false ->
  split EXPLANATION_MARKER s = [s].
Proof.
  intros H. rewrite EXPLANATION_MARKER_unfold in *.
  unfold split. now rewrite split_go_absent.
Qed.

Lemma split_marker_two_parts (A B : jsstring) :
  includes EXPLANATION_MARKER A = false ->
  includes EXPLANATION_MARKER B = false ->
  split EXPLANATION_MARKER (A ++ EXPLANATION_MARKER ++ B) = [A; B].
Proof.
  intros HA HB. rewrite EXPLANATION_MARKER_unfold in *.
  unfold split.
  rewrite (split_go_first _ _ bracket_fresh [] A B HA).
  now rewrite split_go_absent.
Qed.

(** The first piece is empty exactly when the string starts with the
    marker. *)
Lemma split_marker_part0 (s : jsstring) :
  s <> [] ->
  exists a, nth_error (split EXPLANATION_MARKER s) 0 = Some a /\
            (a = [] <-> startsWith EXPLANATION_MARKER s = true).
Proof.
  intros Hs. destruct s as [|c s]; [congruence|].
  rewrite EXPLANATION_MARKER_unfold. unfold split. cbn [split_go].
  destruct (startsWith (91%N :: lit "EXPLANATION]") (c :: s)) eqn:E.
  - exists []. simpl. now split.
  - destruct (split_go_head 91%N (lit "EXPLANATION]") [c] s)
      as [piece [rest Hgo]].
    cbv zeta in Hgo. rewrite Hgo. exists (c :: piece). simpl.
    split; [reflexivity|]. split; discriminate.
Qed.



(** A message that is not error-tagged is displayed by these pieces. *)
Lemma render_two_parts (m : ChatMessage) (A B : jsstring) :
  startsWith ERROR_MODE_prefix (ChatMessage.text m) = false ->
  ChatMessage.text m = A ++ EXPLANATION_MARKER ++ B ->
  includes EXPLANATION_MARKER A = false ->
  includes EXPLANATION_MARKER B = false ->
  answer (render m) = Some A /\ explanation (render m) = Some B.
Proof.
  intros He Ht HA HB. unfold render. rewrite He. cbv beta iota zeta.
  rewrite Ht, (split_marker_two_parts _ _ HA HB). now split.
Qed.

(** C5, as the code has it. Every string that [solveQuestion] returns is
    non-empty. Part 0 of its split on the marker exists, and it is empty
    exactly when the string starts with the marker; when the string does not
    contain the marker, part 0 is the whole string, hence non-empty. *)
Theorem solveQuestion_answer_part
    (toLowerCase : jsstring -> jsstring) (onLine : bool)
    (prompt subject : jsstring) (image : option jsstring)
    (api : GenerateContentOutcome) (requests : list Request) (s : jsstring) :
  solveQuestion toLowerCase onLine prompt subject image api
    = (requests, inl s) ->
  s <> [] /\
  (exists a, nth_error (split EXPLANATION_MARKER s) 0 = Some a /\
             (a = [] <-> startsWith EXPLANATION_MARKER s = true)) /\
  (includes EXPLANATION_MARKER s = false ->
   nth_error (split EXPLANATION_MARKER s) 0 = Some s).
Proof.
  intros H.
  assert (Hs : s <> []).
  { unfold solveQuestion in H. destruct onLine; simpl in H; [|discriminate].
    destruct api as [[t|] fr | e]; simpl in H.
    - destruct t; simpl in H.
      + destruct fr as [r|]; [destruct (Js.eqb r (lit "SAFETY"))|];
          discriminate.
      + injection H as _ <-. discriminate.
    - destruct fr as [r|]; [destruct (Js.eqb r (lit "SAFETY"))|];
        discriminate.
    - discriminate. }
  split; [exact Hs|]. split.
  - now apply split_marker_part0.
  - intros Ha. now rewrite split_marker_absent.
Qed.

Lemma solveQuestion_answer_part_witness :
  lit "Accra" <> [] /\
  (exists a, nth_error (split EXPLANATION_MARKER (lit "Accra")) 0 = Some a /\
             (a = [] <-> startsWith EXPLANATION_MARKER (lit "Accra") = true)) /\
  (includes EXPLANATION_MARKER (lit "Accra") = false ->
   nth_error (split EXPLANATION_MARKER (lit "Accra")) 0 = Some (lit "Accra")).
Proof.
  apply (solveQuestion_answer_part toLowerCase_ascii true
           (lit "Capital of Ghana?") (subject_name SocialStudies) None
           (Response (Some (lit "Accra")) (Some (lit "STOP")))
           [solveQuestion_request (lit "Capital of Ghana?")
              (subject_name SocialStudies) None]).
  reflexivity.
Defined.

(** C5, as stated, fails: a response that starts with the marker is
    returned by [solveQuestion], and part 0 of its split is the empty
    string. *)
Lemma solveQuestion_empty_answer_part :
  let s := EXPLANATION_MARKER ++ lit "Accra is the capital." in
  snd (solveQuestion toLowerCase_ascii true (lit "Capital of Ghana?")
         (subject_name SocialStudies) None
         (Response (Some s) (Some (lit "STOP"))))
    = inl s /\
  nth_error (split EXPLANATION_MARKER s) 0 = Some [].
Proof. split; reflexivity. Qed.

(* ================================================================== *)
(** * The error-tagged message encoding *)
(* ================================================================== *)

Lemma greedy_dots_singleLine (t : jsstring) :
  singleLine t = true -> greedy_dots t = t.
Proof.
  induction t as [|c t IH]; simpl; [reflexivity|].
  intros H. apply andb_true_iff in H as [Hc Ht].
  apply negb_true_iff in Hc. rewrite Hc. now rewrite IH.
Qed.

Lemma greedy_dots_is_singleLine (t : jsstring) :
  singleLine (greedy_dots t) = true.
Proof.
  induction t as [|c t IH]; simpl; [reflexivity|].
  destruct (isLineTerminator c) eqn:E; simpl; [reflexivity|].
  now rewrite E, IH.
Qed.

(** The pattern matches an encoded error at its start; group 1 is the error
    type, group 2 the text up to its first line terminator. *)
Lemma ERROR_MODE_match_encoded (k : ErrorType) (t : jsstring) :
  ERROR_MODE_match (ERROR_MODE_text (ErrorType_name k) t)
  = Some (ErrorType_name k, greedy_dots t).
Proof. destruct k; reflexivity. Qed.

Lemma isError_encoded (k : ErrorType) (t : jsstring) :
  startsWith ERROR_MODE_prefix (ERROR_MODE_text (ErrorType_name k) t) = true.
Proof. apply startsWith_app. Qed.

Lemma render_encoded (m : ChatMessage) (k : ErrorType) (t : jsstring) :
  ChatMessage.text m = ERROR_MODE_text (ErrorType_name k) t ->
  isError (render m) = true /\
  errorType (render m) = ErrorType_name k /\
  displayContent (render m) = greedy_dots t.
Proof.
  intros Ht. unfold render.
  rewrite Ht, isError_encoded, ERROR_MODE_match_encoded. now repeat split.
Qed.

(** C4, as the code has it. [render] computes the view of a message from
    its [text] and returns it; the message is an argument and is not
    written. For a message whose text is the encoding of an error type and a
    text, the view is error-tagged, its error type is the encoded one, and
    its content is the encoded text up to the first line terminator: the
    whole encoded text when that holds no line terminator, in which case
    encoding the decoded pair gives the stored text again. *)
Theorem decode_error_tagged (m : ChatMessage) (k : ErrorType) (t : jsstring) :
  ChatMessage.text m = ERROR_MODE_text (ErrorType_name k) t ->
  isError (render m) = true /\
  errorType (render m) = ErrorType_name k /\
  displayContent (render m) = greedy_dots t /\
  (singleLine t = true ->
   displayContent (render m) = t /\
   ERROR_MODE_text (errorType (render m)) (displayContent (render m))
   = ChatMessage.text m).
Proof.
  intros Ht. destruct (render_encoded m k t Ht) as [H1 [H2 H3]].
  repeat split; try assumption.
  - rewrite H3. now apply greedy_dots_singleLine.
  - rewrite H2, H3, Ht. now rewrite greedy_dots_singleLine.
Qed.

Lemma decode_error_tagged_witness :
  let t := lit "The request took too long. The server might be busy." in
  let m := ChatMessage.mk (lit "1700000000001") model
             (ERROR_MODE_text (lit "timeout") t) None in
  isError (render m) = true /\
  errorType (render m) = lit "timeout" /\
  displayContent (render m) = greedy_dots t /\
  (singleLine t = true ->
   displayContent (render m) = t /\
   ERROR_MODE_text (errorType (render m)) (displayContent (render m))
   = ChatMessage.text m).
Proof.
  intros t m. apply (decode_error_tagged m timeout t). reflexivity.
Defined.

(** C4, as stated, fails: of an encoded text of two lines the decoding gives
    back the first line only. *)
Lemma decode_drops_second_line :
  let t := lit "The request took too long." ++ LF ++ lit "Try again." in
  let m := ChatMessage.mk (lit "1700000000001") model
             (ERROR_MODE_text (ErrorType_name timeout) t) None in
  errorType (render m) = ErrorType_name timeout /\
  displayContent (render m) = lit "The request took too long." /\
  displayContent (render m) <> t.
Proof. repeat split. discriminate. Qed.

(* ================================================================== *)
(** * Failure classification *)
(* ================================================================== *)

Section Classification.

Variable toLowerCase : jsstring -> jsstring.



End Classification.




(** The order of the tests at work again: a message with a network word
    and a timeout word is classified network, and the appended message
    decodes to network. *)
Example first_test_decides :
  let m := lit "network timeout" in
  let r := snd (solveQuestion toLowerCase_ascii true (lit "2+2?")
                  (subject_name Mathematics) None
                  (Rejected (ThrownOther (Some m)))) in
  let p := mkPending (lit "2+2?")
             (ChatMessage.mk (lit "1700") user (lit "2+2?") None) false in
  mentions_timeout (toLowerCase_ascii m) = true /\
  failure_type r = Some network /\
  map (fun bot => errorType (render bot))
      (messages (fst (handleSend_resume p 1800 r mount)))
  = [lit "network"].
Proof. repeat split. Qed.

(* ================================================================== *)
(** * Sending *)
(* ================================================================== *)

(** [handleSend] returns at once when the trimmed input is empty and no
    image is pending. *)
Lemma handleSend_blank (subject : Subject) (now : N) (st : TutorChat) :
  trim (input st) = [] -> truthy_opt (image st) = false ->
  handleSend_begin subject now st = (st, [], None).
Proof.
  intros Hi Him. unfold handleSend_begin. now rewrite Hi, Him.
Qed.

(** The Ask button does nothing while a send is in flight. *)
Lemma Ask_onClick_loading (subject : Subject) (now : N) (st : TutorChat) :
  loading st = true -> Ask_onClick subject now st = (st, [], None).
Proof. intros H. unfold Ask_onClick, Ask_disabled. now rewrite H. Qed.

(** [handleSend] does not read [loading]. *)
Lemma handleSend_ignores_loading (subject : Subject) (now : N)
    (st : TutorChat) (v : bool) :
  messages (fst (fst (handleSend_begin subject now (setLoading v st))))
  = messages (fst (fst (handleSend_begin subject now st))) /\
  snd (fst (handleSend_begin subject now (setLoading v st)))
  = snd (fst (handleSend_begin subject now st)).
Proof.
  unfold handleSend_begin. cbn [input image setLoading].
  destruct (negb (truthy (trim (input st))) && negb (truthy_opt (image st)));
    split; reflexivity.
Qed.

Lemma handleSend_begin_sends (subject : Subject) (now : N) (st : TutorChat) :
  truthy (trim (input st)) = true \/ truthy_opt (image st) = true ->
  let userMsg :=
    ChatMessage.mk (toString now) user (input st) (or_undefined (image st)) in
  handleSend_begin subject now st
  = (setLoading true (setImage None (setInput []
       (setMessages (fun prev => prev ++ [userMsg]) st))),
     (if isListening st then [RecognitionStop] else []) ++
     (if isTTSEnabled st
      then speakText (isTTSEnabled st) (lit "Checking that for you...")
      else []) ++
     [CallSolveQuestion (input st) subject (or_undefined (image st))],
     Some (mkPending (input st) userMsg (isTTSEnabled st))).
Proof.
  intros H userMsg. unfold handleSend_begin.
  replace (negb (truthy (trim (input st))) && negb (truthy_opt (image st)))
    with false; [reflexivity|].
  destruct H as [H | H]; rewrite H; simpl; [reflexivity|].
  now rewrite andb_false_r.
Qed.

(** C1 on the code: [handleSend] does not look at [loading]. While a send
    is in flight and the student has typed the next question, Enter in the
    text field sends it: a user message is appended, the input and the
    pending image are cleared and [solveQuestion] is called again. The Ask
    button, in the same state, does nothing. *)
Theorem Enter_while_loading_sends
    (subject : Subject) (now : N) (st : TutorChat) :
  loading st = true ->
  truthy (trim (input st)) = true ->
  let sent := onKeyPress_Enter subject now st in
  let userMsg :=
    ChatMessage.mk (toString now) user (input st) (or_undefined (image st)) in
  messages (fst (fst sent)) = messages st ++ [userMsg] /\
  input (fst (fst sent)) = [] /\
  image (fst (fst sent)) = None /\
  In (CallSolveQuestion (input st) subject (or_undefined (image st)))
     (snd (fst sent)) /\
  Ask_onClick subject now st = (st, [], None).
Proof.
  intros Hloading Hinput sent userMsg. subst sent.
  unfold onKeyPress_Enter.
  rewrite (handleSend_begin_sends subject now st (or_introl Hinput)).
  cbn [fst snd messages input image setLoading setImage setInput setMessages].
  repeat split.
  - apply in_or_app. right. apply in_or_app. right. now left.
  - now apply Ask_onClick_loading.
Qed.

Lemma Enter_while_loading_sends_witness :
  let st0 := setInput (lit "2+2?") mount in
  let st1 := fst (fst (handleSend_begin Mathematics 1700 st0)) in
  let st2 := setInput (lit "3+3?") st1 in
  let sent := onKeyPress_Enter Mathematics 1900 st2 in
  map ChatMessage.text (messages (fst (fst sent))) = [lit "2+2?"; lit "3+3?"]
  /\
  snd (fst sent) = [CallSolveQuestion (lit "3+3?") Mathematics None].
Proof.
  intros st0 st1 st2 sent.
  destruct (Enter_while_loading_sends Mathematics 1900 st2)
    as [H _]; [reflexivity | reflexivity |].
  fold sent in H. rewrite H. split; reflexivity.
Defined.

(** C7. A send that passes the guard appends the user message in its
    synchronous part, whose last effect, and only call of the AI client for
    an answer, is the call of [solveQuestion]. When that call succeeds the
    continuation appends one model message with the response at the end of
    the transcript, whatever the transcript is by then. With nothing in
    between, the transcript is the old one followed by the user message and
    then the model message: it grows by exactly 2. *)
Theorem successful_send_appends_two
    (toLowerCase : jsstring -> jsstring) (subject : Subject) (onLine : bool)
    (api : GenerateContentOutcome) (now later : N) (st : TutorChat)
    (aiResponse : jsstring) :
  truthy (trim (input st)) = true \/ truthy_opt (image st) = true ->
  snd (solveQuestion toLowerCase onLine (input st) (subject_name subject)
         (or_undefined (image st)) api) = inl aiResponse ->
  let userMsg :=
    ChatMessage.mk (toString now) user (input st) (or_undefined (image st)) in
  let botMsg := ChatMessage.mk (toString (later + 1)) model aiResponse None in
  (exists st1 effects p,
     handleSend_begin subject now st
     = (st1,
        effects ++
          [CallSolveQuestion (input st) subject (or_undefined (image st))],
        Some p) /\
     messages st1 = messages st ++ [userMsg] /\
     forallb (fun e => negb (is_solveQuestion_call e)) effects = true /\
     forall st',
       messages (fst (handleSend_resume p later (inl aiResponse) st'))
       = messages st' ++ [botMsg]) /\
  messages (fst (handleSend toLowerCase subject onLine api now later st))
  = messages st ++ [userMsg; botMsg] /\
  length (messages (fst (handleSend toLowerCase subject onLine api now later st)))
  = length (messages st) + 2.
Proof.
  intros Hguard Hok userMsg botMsg.
  pose proof (handleSend_begin_sends subject now st Hguard) as Hb.
  cbv zeta in Hb. fold userMsg in Hb.
  assert (Hall :
    messages (fst (handleSend toLowerCase subject onLine api now later st))
    = messages st ++ [userMsg; botMsg]).
  { unfold handleSend. rewrite Hb.
    cbn [currentInput userMessage ChatMessage.image]. fold userMsg.
    change (ChatMessage.image userMsg) with (or_undefined (image st)).
    rewrite Hok. cbn. now rewrite <- app_assoc. }
  split; [|split; [exact Hall|]].
  - eexists _, (_ ++ _), _. split; [rewrite Hb; now rewrite app_assoc|].
    split; [reflexivity|]. split.
    + destruct (isListening st), (isTTSEnabled st); reflexivity.
    + intros st'. reflexivity.
  - rewrite Hall, length_app. reflexivity.
Qed.

Lemma successful_send_appends_two_witness :
  let st := setInput (lit "2+2?") mount in
  let userMsg := ChatMessage.mk (lit "1700") user (lit "2+2?") None in
  let botMsg := ChatMessage.mk (lit "1801") model (lit "4") None in
  messages (fst (handleSend toLowerCase_ascii Mathematics true
                   (Response (Some (lit "4")) (Some (lit "STOP")))
                   1700 1800 st))
  = messages st ++ [userMsg; botMsg].
Proof.
  intros st userMsg botMsg.
  apply (successful_send_appends_two toLowerCase_ascii Mathematics true
           (Response (Some (lit "4")) (Some (lit "STOP"))) 1700 1800 st
           (lit "4")).
  - left. reflexivity.
  - reflexivity.
Defined.

(* ================================================================== *)
(** * Retrying *)
(* ================================================================== *)

Lemma Js_eqb_refl (s : jsstring) : Js.eqb s s = true.
Proof. induction s as [|c s IH]; simpl; [|rewrite N.eqb_refl]; auto. Qed.

Lemma find_skips (A : Type) (p : A -> bool) (l1 l2 : list A) :
  (forall x, In x l1 -> p x = false) ->
  find p (l1 ++ l2) = find p l2.
Proof.
  induction l1 as [|a l1 IH]; intros H; simpl; [reflexivity|].
  rewrite (H a (or_introl eq_refl)). apply IH. intros x Hx. apply H. now right.
Qed.

(** [find] on the reversed transcript gives the last user message. *)
Lemma lastUserMsg_found (pre post : list ChatMessage) (u : ChatMessage) :
  ChatMessage.role u = user ->
  (forall x, In x post -> ChatMessage.role x = model) ->
  find (fun msg => Role_eqb (ChatMessage.role msg) user)
       (rev (pre ++ u :: post)) = Some u.
Proof.
  intros Hu Hpost. rewrite rev_app_distr. simpl rev. rewrite <- app_assoc.
  rewrite find_skips.
  - simpl. now rewrite Hu.
  - intros x Hx. apply in_rev in Hx. now rewrite (Hpost x Hx).
Qed.

Lemma lastUserMsg_missing (l : list ChatMessage) :
  (forall x, In x l -> ChatMessage.role x = model) ->
  find (fun msg => Role_eqb (ChatMessage.role msg) user) (rev l) = None.
Proof.
  intros H. rewrite <- (app_nil_r (rev l)). rewrite find_skips; [reflexivity|].
  intros x Hx. apply in_rev in Hx. now rewrite (H x Hx).
Qed.

Lemma same_id_absent (m : ChatMessage) (l : list ChatMessage) :
  length (filter (same_id m) l) = 0 ->
  ~ In m l /\ filter (fun x => negb (same_id m x)) l = l.
Proof.
  induction l as [|x l IH]; simpl; [now split; auto|].
  destruct (same_id m x) eqn:E; simpl; [discriminate|].
  intros H. destruct (IH H) as [Hn Hf]. split.
  - intros [-> | Hin]; [|contradiction].
    unfold same_id in E. now rewrite Js_eqb_refl in E.
  - now rewrite Hf.
Qed.

(** Filtering on the id removes exactly [m] when no other message has its
    id. *)
Lemma filter_unique_id (m : ChatMessage) (l : list ChatMessage) :
  In m l ->
  length (filter (same_id m) l) = 1 ->
  exists before after,
    l = before ++ m :: after /\
    filter (fun x => negb (same_id m x)) l = before ++ after.
Proof.
  induction l as [|x l IH]; simpl; [contradiction|].
  intros Hin Hcount. destruct (same_id m x) eqn:E; simpl in *.
  - injection Hcount as Hcount.
    destruct (same_id_absent m l Hcount) as [Hn Hf].
    destruct Hin as [-> | Hin]; [|contradiction].
    exists [], l. now rewrite Hf.
  - destruct Hin as [-> | Hin].
    + unfold same_id in E. now rewrite Js_eqb_refl in E.
    + destruct (IH Hin Hcount) as [before [after [-> Hf]]].
      exists (x :: before), after. simpl. now rewrite Hf.
Qed.

(** C2, as the code has it. For a transcript whose last user message is [u]
    and an error-tagged message [m] in it whose id no other message has,
    retry on [m] removes exactly [m], so that the transcript is shorter by
    1, puts the text of [u] in the input field and the image of [u] (or
    none) in the pending image, and sends nothing: no effect is issued and
    [loading] is as before. *)
Theorem retry_removes_and_restores
    (st : TutorChat) (m u : ChatMessage) (pre post : list ChatMessage) :
  messages st = pre ++ u :: post ->
  ChatMessage.role u = user ->
  (forall x, In x post -> ChatMessage.role x = model) ->
  In m (messages st) ->
  isError (render m) = true ->
  length (filter (same_id m) (messages st)) = 1 ->
  exists before after st',
    messages st = before ++ m :: after /\
    retry_onClick m st = (st', []) /\
    messages st' = before ++ after /\
    length (messages st') + 1 = length (messages st) /\
    input st' = ChatMessage.text u /\
    image st' = or_undefined (ChatMessage.image u) /\
    loading st' = loading st.
Proof.
  intros Hm Hu Hpost Hin _ Hid.
  destruct (filter_unique_id m (messages st) Hin Hid)
    as [before [after [Hsplit Hf]]].
  exists before, after. eexists. split; [exact Hsplit|].
  unfold retry_onClick. rewrite Hm at 1.
  rewrite (lastUserMsg_found pre post u Hu Hpost).
  split; [reflexivity|]. cbn [messages input image loading setMessages
                              setInput setImage].
  change (filter (fun msg =>
                    negb (Js.eqb (ChatMessage.id msg) (ChatMessage.id m)))
                 (messages st))
    with (filter (fun x => negb (same_id m x)) (messages st)).
  rewrite Hf. repeat split.
  rewrite Hsplit, !length_app. simpl. lia.
Qed.

Lemma retry_removes_and_restores_witness :
  let u := ChatMessage.mk (lit "1700") user (lit "2+2?") None in
  let m := ChatMessage.mk (lit "1801") model
             (ERROR_MODE_text (lit "network")
                (lit "Network connection failed. Please check your internet."))
             None in
  let st := setMessages (fun _ => [u; m]) mount in
  exists before after st',
    messages st = before ++ m :: after /\
    retry_onClick m st = (st', []) /\
    messages st' = before ++ after /\
    length (messages st') + 1 = length (messages st) /\
    input st' = ChatMessage.text u /\
    image st' = or_undefined (ChatMessage.image u) /\
    loading st' = loading st.
Proof.
  intros u m st.
  apply (retry_removes_and_restores st m u [] [m]).
  - reflexivity.
  - reflexivity.
  - intros x [<- | []]. reflexivity.
  - right. left. reflexivity.
  - reflexivity.
  - reflexivity.
Defined.

(** C2, as stated, fails: the first question fails off line, a second
    question is answered, and retry on the error message of the first
    question restores the second question. *)
Lemma retry_restores_the_last_question :
  let st0 := setInput (lit "What is 2+2?") mount in
  let st1 := fst (handleSend toLowerCase_ascii Mathematics false
                    (Response None None) 1000 1001 st0) in
  let st2 := setInput (lit "What is 3+3?") st1 in
  let st3 := fst (handleSend toLowerCase_ascii Mathematics true
                    (Response (Some (lit "6")) (Some (lit "STOP")))
                    5000 6000 st2) in
  exists u1 e1 u2 a2,
    messages st1 = [u1; e1] /\
    messages st3 = [u1; e1; u2; a2] /\
    ChatMessage.text u1 = lit "What is 2+2?" /\
    isError (render e1) = true /\
    messages (fst (retry_onClick e1 st3)) = [u1; u2; a2] /\
    input (fst (retry_onClick e1 st3)) = lit "What is 3+3?" /\
    input (fst (retry_onClick e1 st3)) <> ChatMessage.text u1.
Proof.
  intros st0 st1 st2 st3. do 4 eexists.
  split; [reflexivity|]. split; [reflexivity|]. split; [reflexivity|].
  split; [reflexivity|]. split; [reflexivity|]. split; [reflexivity|].
  discriminate.
Qed.

(** Removal is by id: of two error messages that were made in the same
    millisecond, retry on one removes both. *)
Example retry_removes_every_message_with_the_id :
  let u1 := ChatMessage.mk (lit "1000") user (lit "2+2?") None in
  let u2 := ChatMessage.mk (lit "1200") user (lit "3+3?") None in
  let e := ChatMessage.mk (lit "5001") model
             (ERROR_MODE_text (lit "timeout")
                (lit "The request took too long. The server might be busy."))
             None in
  let st := setMessages (fun _ => [u1; u2; e; e]) mount in
  messages (fst (retry_onClick e st)) = [u1; u2].
Proof. reflexivity. Qed.

(** C10. When the transcript holds no user message, retry on a message
    changes nothing: the state, and with it the transcript, the input field
    and the pending image, is returned as it was, and no effect is
    issued. *)
Theorem retry_without_user_message (st : TutorChat) (m : ChatMessage) :
  (forall x, In x (messages st) -> ChatMessage.role x = model) ->
  retry_onClick m st = (st, []).
Proof.
  intros H. unfold retry_onClick. now rewrite (lastUserMsg_missing _ H).
Qed.

Lemma retry_without_user_message_witness :
  let m := ChatMessage.mk (lit "1801") model
             (ERROR_MODE_text (lit "server")
                (lit "The AI returned an empty response. Please try again."))
             None in
  let st := setInput (lit "typed") (setMessages (fun _ => [m]) mount) in
  isError (render m) = true /\ retry_onClick m st = (st, []).
Proof.
  intros m st. split; [reflexivity|].
  apply (retry_without_user_message st m).
  intros x [<- | []]. reflexivity.
Defined.

(* ================================================================== *)
(** * Playback *)
(* ================================================================== *)

Section Playback.

Variable atob : jsstring -> option jsstring.
Variable newAudioContext : AudioContext.

Lemma existsb_eqb_self (n : nat) : existsb (Nat.eqb n) [n] = true.
Proof. simpl. now rewrite Nat.eqb_refl. Qed.

(** When the handle in [currentSourceRef] is the one that plays, a new
    playback stops it before it starts the new source, which is then the
    only one playing and the one in [currentSourceRef]. *)
Lemma playAudio_replaces_current (base64Audio : jsstring) (st : TutorChat)
    (ctx : AudioContext) (current : nat) :
  audioContextRef st = Some ctx ->
  currentSourceRef st = Some current ->
  playing ctx = [current] ->
  playable atob (destination ctx) base64Audio ->
  let played := playAudio atob newAudioContext base64Audio st in
  snd played = [SourceStop current; SourceStart (created ctx)] /\
  live_handles (fst played) = [created ctx] /\
  currentSourceRef (fst played) = Some (created ctx).
Proof.
  intros Hctx Hcur Hplaying [audioData [audioBuffer [Hd Hb]]] played.
  subst played. unfold playAudio. rewrite Hctx, Hd.
  destruct ctx as [s dev n pl q]. simpl in Hplaying, Hb. subst pl.
  assert (Hdev : forall c, destination
            (match s with suspended => setState running c | _ => c end)
            = destination c) by (intros c; destruct s; reflexivity).
  rewrite Hdev. cbn [destination]. rewrite Hb.
  cbn [currentSourceRef setIsPaused setAudioContextRef]. rewrite Hcur.
  destruct s; unfold source_stop, setState, remove_source; cbn;
    rewrite !Nat.eqb_refl; cbn; now repeat split.
Qed.

End Playback.

(** C8 on the code: three clips are played one after the other on a fresh
    context, and the [ended] event of the first, queued when the second
    playback stopped it, is dispatched before the third playback. The
    second playback stops source 0 and starts source 1. The handler of the
    event then clears [currentSourceRef], which holds source 1. The third
    playback finds no current source, stops nothing and starts source 2:
    sources 1 and 2 are playing together. *)
Theorem stale_ended_event_leaves_two_playing
    (atob : jsstring -> option jsstring) (newAudioContext : AudioContext)
    (clip1 clip2 clip3 : jsstring) :
  fresh_context newAudioContext ->
  playable atob (destination newAudioContext) clip1 ->
  playable atob (destination newAudioContext) clip2 ->
  playable atob (destination newAudioContext) clip3 ->
  let play := playAudio atob newAudioContext in
  let first := play clip1 mount in
  let second := play clip2 (fst first) in
  let dispatched := dispatch_ended 0 (fst second) in
  let third := play clip3 dispatched in
  (snd first = [SourceStart 0] /\ live_handles (fst first) = [0]) /\
  (snd second = [SourceStop 0; SourceStart 1] /\
   live_handles (fst second) = [1] /\
   currentSourceRef (fst second) = Some 1) /\
  (currentSourceRef dispatched = None /\ live_handles dispatched = [1] /\
   isSpeaking dispatched = false) /\
  (snd third = [SourceStart 2] /\ live_handles (fst third) = [1; 2]).
Proof.
  intros [Hc [Hp Hq]] [d1 [b1 [Hd1 Hb1]]] [d2 [b2 [Hd2 Hb2]]]
         [d3 [b3 [Hd3 Hb3]]].
  destruct newAudioContext as [s dev n pl q].
  simpl in Hc, Hp, Hq, Hb1, Hb2, Hb3. subst n pl q.
  intros play first second dispatched third.
  assert (Hfirst : first
    = (mkTutorChat [] [] None false false true false false [] None
         (Some (mkAudioContext
                  (match s with suspended => running | _ => s end)
                  dev 1 [0] []))
         (Some 0),
       [SourceStart 0])).
  { subst first play. unfold playAudio. cbn [audioContextRef mount].
    rewrite Hd1. destruct s; cbn; rewrite Hb1; reflexivity. }
  assert (Hsecond : second
    = (mkTutorChat [] [] None false false true false false [] None
         (Some (mkAudioContext
                  (match s with suspended => running | _ => s end)
                  dev 2 [1] [0]))
         (Some 1),
       [SourceStop 0; SourceStart 1])).
  { subst second play. rewrite Hfirst. unfold playAudio.
    cbn [fst audioContextRef]. rewrite Hd2.
    destruct s; cbn; rewrite Hb2; reflexivity. }
  assert (Hdispatched : dispatched
    = mkTutorChat [] [] None false false false false false [] None
        (Some (mkAudioContext
                 (match s with suspended => running | _ => s end)
                 dev 2 [1] []))
        None).
  { subst dispatched. rewrite Hsecond. reflexivity. }
  assert (Hthird : third
    = (mkTutorChat [] [] None false false true false false [] None
         (Some (mkAudioContext
                  (match s with suspended => running | _ => s end)
                  dev 3 [1; 2] []))
         (Some 2),
       [SourceStart 2])).
  { subst third play. rewrite Hdispatched. unfold playAudio.
    cbn [fst audioContextRef]. rewrite Hd3.
    destruct s; cbn; rewrite Hb3; reflexivity. }
  rewrite Hfirst, Hsecond, Hdispatched, Hthird. cbn. now repeat split.
Qed.

Lemma stale_ended_event_leaves_two_playing_witness :
  let play := playAudio atob_html context32 in
  let first := play (lit "AAA=") mount in
  let second := play (lit "AQACAAMA") (fst first) in
  let dispatched := dispatch_ended 0 (fst second) in
  let third := play (lit "/38=") dispatched in
  (snd first = [SourceStart 0] /\ live_handles (fst first) = [0]) /\
  (snd second = [SourceStop 0; SourceStart 1] /\
   live_handles (fst second) = [1] /\
   currentSourceRef (fst second) = Some 1) /\
  (currentSourceRef dispatched = None /\ live_handles dispatched = [1] /\
   isSpeaking dispatched = false) /\
  (snd third = [SourceStart 2] /\ live_handles (fst third) = [1; 2]).
Proof.
  apply (stale_ended_event_leaves_two_playing atob_html context32
           (lit "AAA=") (lit "AQACAAMA") (lit "/38=")).
  - repeat split.
  - eexists _, _. split; reflexivity.
  - eexists _, _. split; reflexivity.
  - eexists _, _. split; reflexivity.
Defined.

(** After the stale event, turning the voice off stops nothing either:
    [toggleTTS] looks for the playing source in [currentSourceRef]. *)
Example toggleTTS_after_stale_event :
  let play := playAudio atob_html context32 in
  let second := play (lit "AQACAAMA") (fst (play (lit "AAA=") mount)) in
  let dispatched := setIsTTSEnabled true (dispatch_ended 0 (fst second)) in
  snd (toggleTTS dispatched) = [] /\
  live_handles (fst (toggleTTS dispatched)) = [1].
Proof. split; reflexivity. Qed.

(* ================================================================== *)
(** * Decoding of PCM audio *)
(* ================================================================== *)

Lemma Int16Array_odd (n : nat) (data : list Byte.byte) :
  length data = 2 * n + 1 -> Int16Array data = None.
Proof.
  revert data; induction n as [|n IH]; intros data H.
  - destruct data as [|x [|y data]]; simpl in H; try lia. reflexivity.
  - destruct data as [|x [|y data]]; simpl in H; try lia.
    cbn [Int16Array]. rewrite IH; [reflexivity | lia].
Qed.

(** The view of a buffer of even length: one sample per pair of bytes. *)
Lemma Int16Array_even (n : nat) (data : list Byte.byte) :
  length data = 2 * n ->
  exists dataInt16,
    Int16Array data = Some dataInt16 /\
    length dataInt16 = n /\
    forall k, k < n ->
      nth k dataInt16 0%Z
      = int16 (nth (2 * k) data Byte.x00) (nth (2 * k + 1) data Byte.x00).
Proof.
  revert data; induction n as [|n IH]; intros data H.
  - destruct data; [|discriminate]. exists []. repeat split. lia.
  - destruct data as [|x [|y data]]; simpl in H; try lia.
    destruct (IH data ltac:(lia)) as [d [Hd [Hlen Hnth]]].
    exists (int16 x y :: d). cbn [Int16Array]. rewrite Hd.
    repeat split; [simpl; lia|].
    intros [|k] Hk; [reflexivity|].
    replace (2 * S k) with (S (S (2 * k))) by lia.
    replace (S (S (2 * k)) + 1) with (S (S (2 * k + 1))) by lia.
    cbn [nth]. apply Hnth. lia.
Qed.

Lemma int16_range (lo hi : Byte.byte) : (-32768 <= int16 lo hi < 32768)%Z.
Proof.
  unfold int16.
  pose proof (Byte.to_N_bounded lo). pose proof (Byte.to_N_bounded hi).
  destruct (Z.ltb_spec
              (Z.of_N (Byte.to_N lo) + 256 * Z.of_N (Byte.to_N hi)) 32768);
    lia.
Qed.

(** The inner loop writes its first [n] elements and leaves the others. *)
Lemma fill_prefix (f : nat -> float) (n : nat) (a : list float) :
  n <= length a ->
  fold_left (fun cd i => store i (f i) cd) (seq 0 n) a
  = map f (seq 0 n) ++ skipn n a.
Proof.
  induction n as [|n IH]; intros Hn; [reflexivity|].
  rewrite seq_S, fold_left_app, IH by lia. cbn [fold_left plus].
  assert (Hlen : length (map f (seq 0 n)) = n)
    by now rewrite length_map, length_seq.
  unfold store. rewrite length_app, Hlen, length_skipn.
  replace (n <? n + (length a - n)) with true
    by (symmetry; apply Nat.ltb_lt; lia).
  rewrite firstn_app, skipn_app, Hlen.
  rewrite (firstn_all2 (map f (seq 0 n))) by (rewrite Hlen; lia).
  rewrite (skipn_all2 (map f (seq 0 n))) by (rewrite Hlen; lia).
  replace (n - n) with 0 by lia. replace (S n - n) with 1 by lia.
  cbn [firstn app]. rewrite app_nil_r, skipn_skipn, map_app. cbn [map plus].
  now rewrite <- app_assoc.
Qed.

Lemma frameCount_whole (frames c : nat) :
  c <> 0 ->
  let frameCount := (Z.of_nat (frames * c) # Pos.of_nat c)%Q in
  Qfloor frameCount = Z.of_nat frames /\
  Qceiling frameCount = Z.of_nat frames.
Proof.
  intros Hc frameCount. subst frameCount.
  assert (Hp : Zpos (Pos.of_nat c) = Z.of_nat c)
    by (rewrite <- positive_nat_Z, Nat2Pos.id; auto).
  unfold Qceiling, Qopp, Qfloor. cbn [Qnum Qden]. rewrite Hp, Nat2Z.inj_mul.
  split.
  - apply Z.div_mul. lia.
  - rewrite <- Z.mul_opp_l, Z.div_mul by lia. lia.
Qed.

(** C3, as the code has it. [decodeAudioData] has no check of the length
    against the channel count and no format error of its own. It fails, by
    the [RangeError] of the 16-bit view, whenever the byte length is odd;
    with the single channel that [playAudio] passes, this is whenever the
    length is not a multiple of [numChannels * 2]. For a buffer of one frame
    or more whose length is a multiple of [numChannels * 2], on a device
    that supports the channel count and the rate, it returns a buffer of
    [numChannels] channels of that many frames in which frame [i] of
    channel [channel] is the 16-bit signed sample of index
    [i * numChannels + channel] over 32768. *)
Theorem decodeAudioData_behaviour
    (data : list Byte.byte) (dev : AudioDevice) (sampleRate : Z)
    (numChannels : nat) :
  (Nat.odd (length data) = true ->
   decodeAudioData data dev sampleRate numChannels = Throw RangeError)
  /\
  (numChannels = 1 ->
   length data mod (numChannels * 2) <> 0 ->
   decodeAudioData data dev sampleRate numChannels = Throw RangeError)
  /\
  (forall frames,
     1 <= numChannels <= maxChannels dev ->
     rateSupported dev sampleRate = true ->
     1 <= frames -> (Z.of_nat frames < 2 ^ 32)%Z ->
     length data = frames * (numChannels * 2) ->
     exists dataInt16,
       Int16Array data = Some dataInt16 /\
       (forall k, k < frames * numChannels ->
          nth k dataInt16 0%Z
          = int16 (nth (2 * k) data Byte.x00)
                  (nth (2 * k + 1) data Byte.x00)) /\
       decodeAudioData data dev sampleRate numChannels
       = Ok (AudioBuffer.mk numChannels frames sampleRate
               (map (fun channel =>
                       map (fun i =>
                              Val (nth (i * numChannels + channel)
                                     dataInt16 0%Z # 32768)%Q)
                           (seq 0 frames))
                    (seq 0 numChannels)))).
Proof.
  assert (Hodd : Nat.odd (length data) = true ->
                 decodeAudioData data dev sampleRate numChannels
                 = Throw RangeError).
  { intros H. apply Nat.odd_spec in H as [n Hn].
    unfold decodeAudioData. now rewrite (Int16Array_odd n data Hn). }
  split; [exact Hodd|]. split.
  - intros -> Hmod. apply Hodd. change (1 * 2) with 2 in Hmod.
    apply Nat.odd_spec. exists (length data / 2).
    pose proof (Nat.div_mod_eq (length data) 2).
    pose proof (Nat.mod_upper_bound (length data) 2). lia.
  - intros frames Hc Hrate Hf Hbound Hlen.
    destruct (Int16Array_even (frames * numChannels) data ltac:(lia))
      as [d [Hd [Hdlen Hnth]]].
    exists d. split; [exact Hd|]. split; [exact Hnth|].
    unfold decodeAudioData. rewrite Hd.
    destruct numChannels as [|c']; [lia|]. set (c := S c') in *.
    rewrite Hdlen.
    destruct (frameCount_whole frames c ltac:(discriminate)) as [Hfl Hce].
    cbv zeta in Hfl, Hce. cbv zeta.
    unfold createBuffer, to_unsigned_long. rewrite Hfl, Hce.
    rewrite Z.mod_small by lia. rewrite Nat2Z.id.
    replace (c =? 0) with false by reflexivity.
    replace (maxChannels dev <? c) with false
      by (symmetry; apply Nat.ltb_ge; lia).
    replace (frames =? 0) with false by (symmetry; apply Nat.eqb_neq; lia).
    rewrite Hrate. cbn [orb negb AudioBuffer.numberOfChannels
                        AudioBuffer.length AudioBuffer.sampleRate
                        AudioBuffer.channelData].
    f_equal. f_equal. apply map_ext_in. intros ch Hch.
    apply in_seq in Hch.
    rewrite (nth_indep _ [] (repeat (Val 0%Q) frames))
      by (rewrite repeat_length; lia).
    rewrite nth_repeat. unfold fill_channel.
    rewrite (fill_prefix (fun i => sample d (i * c + ch)))
      by (rewrite repeat_length; lia).
    rewrite skipn_all2 by (rewrite repeat_length; lia).
    rewrite app_nil_r. apply map_ext_in. intros i Hi. apply in_seq in Hi.
    unfold sample. rewrite (nth_error_nth' d 0%Z); [reflexivity|]. nia.
Qed.

Lemma decodeAudioData_behaviour_witness :
  decodeAudioData [u8 1; u8 0; u8 2] device32 24000 1 = Throw RangeError /\
  exists dataInt16,
    Int16Array [u8 0; u8 64; u8 0; u8 128; u8 255; u8 255; u8 1; u8 0]
    = Some dataInt16 /\
    decodeAudioData
      [u8 0; u8 64; u8 0; u8 128; u8 255; u8 255; u8 1; u8 0]
      device32 24000 2
    = Ok (AudioBuffer.mk 2 2 24000
            (map (fun channel =>
                    map (fun i =>
                           Val (nth (i * 2 + channel) dataInt16 0%Z # 32768)%Q)
                        (seq 0 2))
                 (seq 0 2))).
Proof.
  split.
  - destruct (decodeAudioData_behaviour [u8 1; u8 0; u8 2] device32 24000 1)
      as [_ [H _]].
    apply H; [reflexivity | discriminate].
  - destruct (decodeAudioData_behaviour
                [u8 0; u8 64; u8 0; u8 128; u8 255; u8 255; u8 1; u8 0]
                device32 24000 2) as [_ [_ H]].
    destruct (H 2) as [d [Hd [_ Hok]]];
      [cbn; lia | reflexivity | lia | lia | reflexivity |].
    exists d. now split.
Defined.

(** C3, as stated, fails: six bytes are not a multiple of the four bytes of
    a stereo frame, and [decodeAudioData] returns a buffer of one frame per
    channel, leaving the third sample out. *)
Lemma decodeAudioData_accepts_partial_frame :
  let data := [u8 1; u8 0; u8 2; u8 0; u8 3; u8 0] in
  length data mod (2 * 2) <> 0 /\
  decodeAudioData data device32 24000 2
  = Ok (AudioBuffer.mk 2 1 24000 [[Val (1 # 32768)%Q]; [Val (2 # 32768)%Q]]).
Proof. split; [discriminate | reflexivity]. Qed.

(* ================================================================== *)
(** * More on strings: equality, occurrences, trimming *)
(* ================================================================== *)

Lemma Js_eqb_eq (s t : jsstring) : Js.eqb s t = true <-> s = t.
Proof.
  revert t; induction s as [|c s IH]; intros [|d t]; simpl;
    try (split; [discriminate | discriminate]); [now split|].
  rewrite andb_true_iff, N.eqb_eq, IH. split.
  - now intros [-> ->].
  - intros H. injection H as -> ->. now split.
Qed.

Lemma startsWith_extend (p x y : jsstring) :
  startsWith p x = true -> startsWith p (x ++ y) = true.
Proof.
  intros H. apply startsWith_iff in H as [r ->]. apply startsWith_iff.
  exists (r ++ y). now rewrite app_assoc.
Qed.

(** [includes] finds an occurrence exactly when there is one. *)
Lemma includes_iff (p s : jsstring) :
  includes p s = true <-> exists a b, s = a ++ p ++ b.
Proof.
  induction s as [|c s IH].
  - simpl. rewrite orb_false_r, startsWith_iff. split.
    + intros [r Hr]. now exists [], r.
    + intros [a [b H]]. destruct a; [now exists b|discriminate].
  - cbn [includes]. rewrite orb_true_iff, startsWith_iff, IH. split.
    + intros [[r Hr] | [a [b Hs]]].
      * now exists [], r.
      * exists (c :: a), b. now rewrite Hs.
    + intros [[|d a] [b H]].
      * left. now exists b.
      * right. injection H as _ ->. now exists a, b.
Qed.

(** No occurrence in a string, none in a part of it. *)
Lemma includes_part (p a x b : jsstring) :
  includes p (a ++ x ++ b) = false -> includes p x = false.
Proof.
  intros H. destruct (includes p x) eqn:E; [|reflexivity].
  apply includes_iff in E as [a' [b' ->]].
  assert (includes p (a ++ (a' ++ p ++ b') ++ b) = true) as H'.
  { apply includes_iff. exists (a ++ a'), (b' ++ b).
    now rewrite <- !app_assoc. }
  congruence.
Qed.

Lemma trimStart_split (s : jsstring) :
  exists ws, s = ws ++ trimStart s /\ forallb isTrimmed ws = true.
Proof.
  induction s as [|c s [ws [Hs Hws]]]; [now exists []|].
  simpl. destruct (isTrimmed c) eqn:E.
  - exists (c :: ws). simpl. rewrite E, Hws. split; [now f_equal|reflexivity].
  - now exists [].
Qed.

Lemma trimStart_head (s : jsstring) :
  match trimStart s with
  | [] => True
  | c :: _ => isTrimmed c = false
  end.
Proof.
  induction s as [|c s IH]; simpl; [exact I|].
  destruct (isTrimmed c) eqn:E; [exact IH|exact E].
Qed.

Lemma trimStart_fixed (s : jsstring) :
  match s with [] => True | c :: _ => isTrimmed c = false end ->
  trimStart s = s.
Proof. destruct s as [|c s]; simpl; [reflexivity|]. now intros ->. Qed.

(** The string is its trimmed part between two runs of white space. *)
Lemma trim_split (s : jsstring) :
  exists l r, s = l ++ trim s ++ r /\
              forallb isTrimmed l = true /\ forallb isTrimmed r = true.
Proof.
  destruct (trimStart_split s) as [l [Hs Hl]].
  destruct (trimStart_split (rev (trimStart s))) as [r [Hr Hrw]].
  exists l, (rev r). unfold trim. repeat split; [|exact Hl|].
  - rewrite <- rev_app_distr, <- Hr, rev_involutive. exact Hs.
  - rewrite forallb_forall in *. intros x Hx. apply Hrw. now apply in_rev.
Qed.

(** A trimmed string neither starts nor ends with white space. *)
Lemma trim_ends (s : jsstring) :
  match trim s with
  | [] => True
  | c :: _ => isTrimmed c = false
  end /\
  match rev (trim s) with
  | [] => True
  | c :: _ => isTrimmed c = false
  end.
Proof.
  unfold trim. rewrite rev_involutive.
  pose proof (trimStart_head (rev (trimStart s))) as Hz.
  split; [|exact Hz].
  destruct (trimStart_split (rev (trimStart s))) as [ws [Hr _]].
  set (z := trimStart (rev (trimStart s))) in *.
  destruct (rev z) as [|c t] eqn:Ez; [exact I|].
  assert (Hy : trimStart s = (c :: t) ++ rev ws).
  { rewrite <- Ez, <- rev_app_distr, <- Hr. now rewrite rev_involutive. }
  pose proof (trimStart_head s) as Hh. now rewrite Hy in Hh.
Qed.

Lemma trim_idempotent (s : jsstring) : trim (trim s) = trim s.
Proof.
  destruct (trim_ends s) as [H1 H2].
  unfold trim at 1. rewrite (trimStart_fixed (trim s) H1).
  rewrite (trimStart_fixed (rev (trim s)) H2). apply rev_involutive.
Qed.

Section Pieces.

Variable c0 : char16.
Variable sep' : jsstring.

Let sep := c0 :: sep'.

(** The first piece runs from the start of the string to the first
    occurrence of the separator, and holds no occurrence. *)
Lemma split_go_first_piece (acc s : jsstring) :
  exists piece rest tail,
    split_go sep 0 acc s = (rev acc ++ piece) :: rest /\
    s = piece ++ tail /\
    includes sep piece = false /\
    (includes sep s = false -> piece = s).
Proof.
  revert acc; induction s as [|d s IH]; intros acc.
  - exists [], [], []. simpl. now rewrite app_nil_r.
  - cbn [split_go]. destruct (startsWith sep (d :: s)) eqn:E.
    + exists [], (split_go sep (length sep - 1) [] s), (d :: s).
      rewrite app_nil_r. repeat split.
      intros H. apply includes_cons_false in H as [H _]. congruence.
    + destruct (IH (d :: acc)) as [piece [rest [tail [Hgo [Hs [Hp Ha]]]]]].
      exists (d :: piece), rest, tail. rewrite Hgo. cbn [rev].
      rewrite <- app_assoc. cbn [app]. split; [reflexivity|].
      split; [now rewrite Hs at 1|]. split.
      * destruct (startsWith sep (d :: piece)) eqn:E'.
        -- apply (startsWith_extend _ _ tail) in E'. cbn [app] in E'.
           rewrite <- Hs in E'. congruence.
        -- cbn [includes]. now rewrite E', Hp.
      * intros H. apply includes_cons_false in H as [_ H]. now rewrite Ha.
Qed.

End Pieces.

(** Part 0 of a split on the marker: a prefix of the text without the
    marker, the whole text when the text has no marker. *)
Lemma marker_part0 (text : jsstring) :
  exists tail,
    text = hd [] (split EXPLANATION_MARKER text) ++ tail /\
    includes EXPLANATION_MARKER (hd [] (split EXPLANATION_MARKER text)) = false.
Proof.
  rewrite EXPLANATION_MARKER_unfold. unfold split.
  destruct (split_go_first_piece 91%N (lit "EXPLANATION]") [] text)
    as [piece [rest [tail [Hgo [Hs [Hp _]]]]]].
  cbv zeta in Hgo. rewrite Hgo. simpl. now exists tail.
Qed.

Lemma replace_absent (pat rep s : jsstring) :
  includes pat s = false -> replace pat rep s = s.
Proof.
  induction s as [|c s IH]; intros H.
  - simpl in *. rewrite orb_false_r in H. now rewrite H.
  - apply includes_cons_false in H as [H1 H2].
    cbn [replace]. now rewrite H1, IH.
Qed.

Lemma replace_unfold (pat rep s : jsstring) :
  replace pat rep s
  = if startsWith pat s then rep ++ skipn (length pat) s
    else match s with
         | [] => []
         | c :: s' => c :: replace pat rep s'
         end.
Proof. destruct s; reflexivity. Qed.

Lemma replace_first_marker (rep A B : jsstring) :
  includes EXPLANATION_MARKER A = false ->
  replace EXPLANATION_MARKER rep (A ++ EXPLANATION_MARKER ++ B) = A ++ rep ++ B.
Proof.
  induction A as [|a A IH]; intros HA.
  - cbn [app]. rewrite replace_unfold, startsWith_app.
    now rewrite skipn_app, skipn_all, Nat.sub_diag.
  - assert (H : startsWith EXPLANATION_MARKER
                  ((a :: A) ++ EXPLANATION_MARKER ++ B) = false).
    { rewrite EXPLANATION_MARKER_unfold in *.
      exact (no_early_occurrence 91%N (lit "EXPLANATION]") bracket_fresh
               (a :: A) B HA ltac:(discriminate)). }
    apply includes_cons_false in HA as [_ HA].
    rewrite replace_unfold, H. cbn [app]. now rewrite IH.
Qed.

(* ================================================================== *)
(** * Revealing, copying and speaking an answer *)
(* ================================================================== *)

Lemma Set_has_add (x y : jsstring) (s : list jsstring) :
  Set_has x (Set_add y s) = Set_has x s || Js.eqb x y.
Proof.
  unfold Set_add. destruct (Set_has y s) eqn:E.
  - destruct (Js.eqb x y) eqn:Exy; [|now rewrite orb_false_r].
    apply Js_eqb_eq in Exy. subst y. now rewrite E.
  - unfold Set_has. rewrite existsb_app. simpl. now rewrite orb_false_r.
Qed.

Lemma Set_add_member (x : jsstring) (s : list jsstring) :
  Set_has x s = true -> Set_add x s = s.
Proof. unfold Set_add. now intros ->. Qed.

(** X1. [handleReveal] adds the id to the revealed set and changes no other
    cell: the message is revealed afterwards, every message that was
    revealed stays so, no other id becomes revealed, the transcript is as
    before, and a second reveal of the same message leaves the state of the
    first. *)
Theorem handleReveal_adds_once
    (msgId explanationText explanationText' : jsstring) (st : TutorChat) :
  let st1 := fst (handleReveal msgId explanationText st) in
  fst (handleReveal msgId explanationText' st1) = st1 /\
  Set_has msgId (revealedExplanations st1) = true /\
  (forall x, Set_has x (revealedExplanations st1)
             = Set_has x (revealedExplanations st) || Js.eqb x msgId) /\
  st1 = setRevealedExplanations (fun _ => revealedExplanations st1) st.
Proof.
  intros st1. subst st1. cbn [handleReveal fst].
  assert (Hin : Set_has msgId (Set_add msgId (revealedExplanations st)) = true).
  { rewrite Set_has_add, Js_eqb_refl. apply orb_true_r. }
  repeat split.
  - unfold setRevealedExplanations.
    cbn [messages input image loading isTTSEnabled isSpeaking isPaused
         isListening revealedExplanations copiedId audioContextRef
         currentSourceRef].
    now rewrite (Set_add_member _ _ Hin).
  - exact Hin.
  - intros x. cbn [revealedExplanations setRevealedExplanations].
    apply Set_has_add.
Qed.

(** X2. The text that [handleCopy] puts on the clipboard holds no
    explanation marker and neither starts nor ends with white space;
    trimming it again changes nothing. For a text [A ++ marker ++ B] with no
    marker in [A] it is [A] trimmed, whatever [B] is: nothing of the
    explanation is copied. *)
Theorem handleCopy_answer_clean (text : jsstring) :
  let copied := handleCopy_answer text in
  includes EXPLANATION_MARKER copied = false /\
  trim copied = copied /\
  match copied with [] => True | c :: _ => isTrimmed c = false end /\
  match rev copied with [] => True | c :: _ => isTrimmed c = false end /\
  (forall A B,
     text = A ++ EXPLANATION_MARKER ++ B ->
     includes EXPLANATION_MARKER A = false ->
     copied = trim A).
Proof.
  intros copied. subst copied. unfold handleCopy_answer.
  destruct (marker_part0 text) as [tail [_ Hfree]].
  destruct (trim_split (hd [] (split EXPLANATION_MARKER text)))
    as [l [r [Hsplit _]]].
  destruct (trim_ends (hd [] (split EXPLANATION_MARKER text))) as [H1 H2].
  split; [|split; [apply trim_idempotent | split; [exact H1 | split;
    [exact H2|]]]].
  - rewrite Hsplit in Hfree. exact (includes_part _ _ _ _ Hfree).
  - intros A B -> HA. rewrite EXPLANATION_MARKER_unfold in *. unfold split.
    now rewrite (split_go_first _ _ bracket_fresh [] A B HA).
Qed.

Lemma handleCopy_answer_clean_witness :
  handleCopy_answer
    (lit " x = 4 " ++ EXPLANATION_MARKER ++ lit " Divide both sides by 2.")
  = lit "x = 4".
Proof.
  destruct (handleCopy_answer_clean
              (lit " x = 4 " ++ EXPLANATION_MARKER
               ++ lit " Divide both sides by 2."))
    as [_ [_ [_ [_ H]]]].
  rewrite (H (lit " x = 4 ") (lit " Divide both sides by 2."));
    reflexivity.
Defined.

(** X3. What [speakText] asks the speech service to say, with the voice
    on: a text without the marker as it is; a text [A ++ marker ++ B] with
    no marker in [A] with that marker, and only that one, replaced by the
    spoken transition. With the voice off it asks nothing. *)
Theorem speakText_request (text A B : jsstring) :
  speakText false text = [] /\
  (includes EXPLANATION_MARKER text = false ->
   speakText true text = [CallGenerateSpeech text]) /\
  (includes EXPLANATION_MARKER A = false ->
   speakText true (A ++ EXPLANATION_MARKER ++ B)
   = [CallGenerateSpeech (A ++ lit ". Next, the explanation: " ++ B)]).
Proof.
  split; [reflexivity|]. split; intros H; unfold speakText; cbn [negb].
  - now rewrite replace_absent.
  - now rewrite replace_first_marker.
Qed.

Lemma speakText_request_witness :
  speakText true (lit "Accra") = [CallGenerateSpeech (lit "Accra")] /\
  speakText true (lit "4" ++ EXPLANATION_MARKER ++ lit "2+2" ++
                  EXPLANATION_MARKER)
  = [CallGenerateSpeech
       (lit "4" ++ lit ". Next, the explanation: " ++ lit "2+2" ++
        EXPLANATION_MARKER)].
Proof.
  destruct (speakText_request (lit "Accra") (lit "4")
              (lit "2+2" ++ EXPLANATION_MARKER)) as [_ [H1 H2]].
  split; [apply H1 | apply H2]; reflexivity.
Defined.



(* ================================================================== *)
(** * Speech and playback: what they leave alone, what they keep *)
(* ================================================================== *)

Section PlaybackFacts.

Variable atob : jsstring -> option jsstring.
Variable newAudioContext : AudioContext.

Lemma same_conversation_refl (st : TutorChat) : same_conversation st st.
Proof. now repeat split. Qed.

Lemma playAudio_same_conversation (base64Audio : jsstring) (st : TutorChat) :
  same_conversation st (fst (playAudio atob newAudioContext base64Audio st))
  /\ isTTSEnabled (fst (playAudio atob newAudioContext base64Audio st))
     = isTTSEnabled st.
Proof.
  unfold playAudio.
  destruct (decodeBase64 atob base64Audio) as [audioData|e];
    [|now repeat split].
  destruct (decodeAudioData audioData _ 24000 1) as [audioBuffer|e];
    [|now repeat split].
  destruct (currentSourceRef _); now repeat split.
Qed.

Lemma destination_resumed (ctx : AudioContext) :
  destination (match state ctx with
               | suspended => setState running ctx
               | _ => ctx
               end) = destination ctx.
Proof. now destruct (state ctx). Qed.

Lemma playing_resumed (ctx : AudioContext) :
  playing (match state ctx with
           | suspended => setState running ctx
           | _ => ctx
           end) = playing ctx.
Proof. now destruct (state ctx). Qed.

(** X5. Whatever the speech service gives back, speaking leaves the
    conversation alone: the transcript, the input, the pending image, the
    in-flight flag and the voice switch are as before. When the request
    fails, or carries no data or empty data, [speakText] does nothing at
    all; otherwise it plays the data, which is a non-empty string. *)
Theorem speech_never_disturbs_the_chat (o : SpeechOutcome) (st : TutorChat) :
  let r := speakText_resume atob newAudioContext (generateSpeech o) st in
  same_conversation st (fst r) /\
  isTTSEnabled (fst r) = isTTSEnabled st /\
  (o = SpeechRejected \/ o = SpeechResponse None \/ o = SpeechResponse (Some [])
   -> r = (st, [])) /\
  (forall d, generateSpeech o = Some d ->
     d <> [] /\ r = playAudio atob newAudioContext d st).
Proof.
  intros r. subst r. split; [|split; [|split]].
  - destruct o as [[[|c d]|]|]; cbn; try apply same_conversation_refl.
    apply (playAudio_same_conversation (c :: d) st).
  - destruct o as [[[|c d]|]|]; cbn; try reflexivity.
    apply (playAudio_same_conversation (c :: d) st).
  - intros [-> | [-> | ->]]; reflexivity.
  - intros d Hd. destruct o as [[[|c d']|]|]; cbn in Hd; try discriminate.
    injection Hd as <-. split; [discriminate | reflexivity].
Qed.

(** X6. A clip that does not decode aborts the playback attempt only:
    [playAudio] logs the error, starts no source and stops none, so the
    handles that were live are still live and [currentSourceRef] is as
    before; it clears [isSpeaking] and [isPaused] and leaves the
    conversation alone. *)
Theorem playAudio_decode_fault (base64Audio : jsstring) (st : TutorChat) :
  ~ playable atob (destination (context_in_use newAudioContext st))
      base64Audio ->
  let r := playAudio atob newAudioContext base64Audio st in
  snd r = [ConsoleError] /\
  currentSourceRef (fst r) = currentSourceRef st /\
  live_handles (fst r) = playing (context_in_use newAudioContext st) /\
  isSpeaking (fst r) = false /\ isPaused (fst r) = false /\
  same_conversation st (fst r).
Proof.
  intros Hnot r. subst r. unfold playAudio, context_in_use in *.
  destruct (decodeBase64 atob base64Audio) as [audioData|e] eqn:Hd.
  - rewrite destination_resumed.
    destruct (decodeAudioData audioData _ 24000 1) as [audioBuffer|e] eqn:Hb.
    + exfalso. apply Hnot. now exists audioData, audioBuffer.
    + cbn. rewrite playing_resumed. now repeat split.
  - cbn. rewrite playing_resumed. now repeat split.
Qed.

End PlaybackFacts.

Lemma speech_never_disturbs_the_chat_witness :
  speakText_resume atob_html context32
    (generateSpeech (SpeechResponse (Some []))) mount = (mount, []) /\
  speakText_resume atob_html context32
    (generateSpeech (SpeechResponse (Some (lit "AAA=")))) mount
  = playAudio atob_html context32 (lit "AAA=") mount.
Proof.
  destruct (speech_never_disturbs_the_chat atob_html context32
              (SpeechResponse (Some [])) mount) as [_ [_ [H _]]].
  destruct (speech_never_disturbs_the_chat atob_html context32
              (SpeechResponse (Some (lit "AAA="))) mount) as [_ [_ [_ H']]].
  split.
  - apply H. right. right. reflexivity.
  - now destruct (H' (lit "AAA=") eq_refl).
Defined.

Lemma playAudio_decode_fault_witness :
  let st := fst (playAudio atob_html context32 (lit "AAA=") mount) in
  let r := playAudio atob_html context32 (lit "AAAA") st in
  snd r = [ConsoleError] /\
  currentSourceRef (fst r) = Some 0 /\
  live_handles (fst r) = [0] /\
  isSpeaking (fst r) = false /\ isPaused (fst r) = false /\
  same_conversation st (fst r).
Proof.
  intros st r.
  apply (playAudio_decode_fault atob_html context32 (lit "AAAA") st).
  intros [audioData [audioBuffer [Hd Hb]]].
  injection Hd as <-. discriminate Hb.
Defined.

(* ================================================================== *)
(** * The audio cells over the events *)
(* ================================================================== *)

Lemma existsb_eqb_In (x : nat) (l : list nat) :
  existsb (Nat.eqb x) l = true <-> In x l.
Proof.
  rewrite existsb_exists. split.
  - intros [y [Hy E]]. apply Nat.eqb_eq in E. now subst.
  - intros H. exists x. split; [exact H | apply Nat.eqb_refl].
Qed.

Lemma remove_source_In (x source : nat) (l : list nat) :
  In x (remove_source source l) <-> In x l /\ x <> source.
Proof.
  unfold remove_source. rewrite filter_In, negb_true_iff, Nat.eqb_neq.
  reflexivity.
Qed.

Lemma remove_source_absent (source : nat) (l : list nat) :
  ~ In source l -> remove_source source l = l.
Proof.
  intros H. induction l as [|x l IH]; [reflexivity|].
  simpl. destruct (Nat.eqb_spec x source) as [->|_].
  - exfalso. apply H. now left.
  - simpl. rewrite IH; [reflexivity|]. intros Hin. apply H. now right.
Qed.

(** [source.stop()] in terms of the lists of the context. *)
Lemma source_stop_lists (source : nat) (ctx : AudioContext) :
  created (source_stop source ctx) = created ctx /\
  state (source_stop source ctx) = state ctx /\
  playing (source_stop source ctx) = remove_source source (playing ctx) /\
  endedQueue (source_stop source ctx)
  = endedQueue ctx ++
    (if existsb (Nat.eqb source) (playing ctx) then [source] else []).
Proof.
  unfold source_stop.
  destruct (existsb (Nat.eqb source) (playing ctx)) eqn:E; cbn.
  - now repeat split.
  - rewrite app_nil_r. repeat split.
    symmetry. apply remove_source_absent. rewrite <- existsb_eqb_In.
    now rewrite E.
Qed.

Lemma source_stop_wf (source : nat) (ctx : AudioContext) :
  context_wf ctx -> context_wf (source_stop source ctx).
Proof.
  intros [Hp [Hq Hn]]. unfold context_wf.
  destruct (source_stop_lists source ctx) as [Hc [_ [Hpl Hqu]]].
  rewrite Hc, Hpl, Hqu. repeat split.
  - rewrite Forall_forall in *. intros x Hx.
    apply remove_source_In in Hx as [Hx _]. now apply Hp.
  - apply Forall_app. split; [exact Hq|].
    destruct (existsb (Nat.eqb source) (playing ctx)) eqn:E; [|constructor].
    apply existsb_eqb_In in E. constructor; [|constructor].
    rewrite Forall_forall in Hp. now apply Hp.
  - now apply NoDup_filter.
Qed.

Lemma setState_wf (v : AudioContextState) (ctx : AudioContext) :
  context_wf ctx -> context_wf (setState v ctx).
Proof. intros H. exact H. Qed.

Lemma resumed_wf (ctx : AudioContext) :
  context_wf ctx ->
  context_wf (match state ctx with
              | suspended => setState running ctx
              | _ => ctx
              end).
Proof. intros H. now destruct (state ctx). Qed.

(** After [source.stop()] a node that played or waited still does one of
    the two. *)
Lemma source_stop_keeps (source x : nat) (ctx : AudioContext) :
  In x (playing ctx) \/ In x (endedQueue ctx) ->
  In x (playing (source_stop source ctx)) \/
  In x (endedQueue (source_stop source ctx)).
Proof.
  destruct (source_stop_lists source ctx) as [_ [_ [Hpl Hqu]]].
  rewrite Hpl, Hqu. intros [H | H].
  - destruct (Nat.eq_dec x source) as [->|Hne].
    + right. apply in_or_app. right.
      apply existsb_eqb_In in H. rewrite H. now left.
    + left. now apply remove_source_In.
  - right. apply in_or_app. now left.
Qed.

Section AudioInvariant.

Variable atob : jsstring -> option jsstring.
Variable newAudioContext : AudioContext.
Hypothesis new_is_fresh : fresh_context newAudioContext.

Lemma fresh_wf : context_wf newAudioContext.
Proof.
  destruct new_is_fresh as [_ [Hp Hq]]. unfold context_wf.
  rewrite Hp, Hq. repeat split; constructor.
Qed.

Lemma context_in_use_wf (st : TutorChat) :
  audio_wf st -> context_wf (context_in_use newAudioContext st).
Proof.
  unfold audio_wf, context_in_use. destruct (audioContextRef st).
  - now intros [H _].
  - intros _. apply fresh_wf.
Qed.

(** The handles live before a playback, seen on the context in use. *)
Lemma live_context_in_use (st : TutorChat) :
  audio_wf st -> playing (context_in_use newAudioContext st) = live_handles st.
Proof.
  unfold context_in_use, live_handles. destruct (audioContextRef st);
    [reflexivity|].
  intros _. now destruct new_is_fresh as [_ [Hp _]].
Qed.

(** [playAudio] on a clip that decodes, in terms of the cells. *)
Lemma playAudio_success (base64Audio : jsstring) (st : TutorChat) :
  playable atob (destination (context_in_use newAudioContext st)) base64Audio ->
  let ctx0 := match state (context_in_use newAudioContext st) with
              | suspended => setState running (context_in_use newAudioContext st)
              | _ => context_in_use newAudioContext st
              end in
  let ctx1 := match currentSourceRef st with
              | Some current => source_stop current ctx0
              | None => ctx0
              end in
  let r := playAudio atob newAudioContext base64Audio st in
  audioContextRef (fst r)
  = Some (source_start (created ctx1) (snd (createBufferSource ctx1))) /\
  currentSourceRef (fst r) = Some (created ctx1) /\
  isSpeaking (fst r) = true /\ isPaused (fst r) = false /\
  snd r = match currentSourceRef st with
          | Some current => [SourceStop current]
          | None => []
          end ++ [SourceStart (created ctx1)].
Proof.
  intros [audioData [audioBuffer [Hd Hb]]] ctx0 ctx1 r.
  subst r ctx1 ctx0. unfold playAudio.
  fold (context_in_use newAudioContext st). rewrite Hd.
  rewrite destination_resumed, Hb.
  cbn [currentSourceRef setIsPaused setAudioContextRef].
  destruct (currentSourceRef st); cbn; now repeat split.
Qed.

Lemma playAudio_wf (base64Audio : jsstring) (st : TutorChat) :
  audio_wf st -> audio_wf (fst (playAudio atob newAudioContext base64Audio st)).
Proof.
  intros Hwf.
  pose proof (context_in_use_wf st Hwf) as Hctx.
  pose proof (resumed_wf _ Hctx) as Hres.
  destruct (decodeBase64 atob base64Audio) as [audioData|e] eqn:Hd.
  destruct (decodeAudioData audioData
              (destination (context_in_use newAudioContext st)) 24000 1)
    as [audioBuffer|e] eqn:Hb.
  - destruct (playAudio_success base64Audio st) as [Hc [Hcur [_ [Hpa _]]]];
      [now exists audioData, audioBuffer|].
    unfold audio_wf. rewrite Hc, Hcur, Hpa.
    set (ctx0 := match state (context_in_use newAudioContext st) with
                 | suspended => _ | _ => _ end) in *.
    set (ctx1 := match currentSourceRef st with
                 | Some current => source_stop current ctx0
                 | None => ctx0 end).
    assert (H1 : context_wf ctx1)
      by (subst ctx1; destruct (currentSourceRef st);
          [now apply source_stop_wf | exact Hres]).
    destruct H1 as [Hp [Hq Hn]].
    split; [|split; [|discriminate]].
    + unfold context_wf. cbn. repeat split.
      * apply Forall_app. split.
        -- eapply Forall_impl; [|exact Hp]. cbn. lia.
        -- constructor; [lia | constructor].
      * eapply Forall_impl; [|exact Hq]. cbn. lia.
      * apply NoDup_app; [exact Hn | repeat constructor; auto |].
        intros x Hx [<- | []]. rewrite Forall_forall in Hp.
        specialize (Hp _ Hx). lia.
    + intros current Hcurrent. injection Hcurrent as <-. left. cbn.
      apply in_or_app. right. now left.
  - unfold playAudio. fold (context_in_use newAudioContext st).
    rewrite Hd, destination_resumed, Hb. unfold playAudio_catch, audio_wf.
    cbn. split; [exact Hres|]. split; [|discriminate].
    intros current Hcurrent. unfold audio_wf, context_in_use in *.
    destruct (audioContextRef st) as [c|].
    + destruct Hwf as [_ [Hk _]]. specialize (Hk _ Hcurrent).
      now destruct (state c).
    + destruct Hwf as [Hnone _]. congruence.
  - unfold playAudio. fold (context_in_use newAudioContext st).
    rewrite Hd. unfold playAudio_catch, audio_wf.
    cbn. split; [exact Hres|]. split; [|discriminate].
    intros current Hcurrent. unfold audio_wf, context_in_use in *.
    destruct (audioContextRef st) as [c|].
    + destruct Hwf as [_ [Hk _]]. specialize (Hk _ Hcurrent).
      now destruct (state c).
    + destruct Hwf as [Hnone _]. congruence.
Qed.

End AudioInvariant.

Lemma source_runs_out_wf (source : nat) (st : TutorChat) :
  audio_wf st -> audio_wf (source_runs_out source st).
Proof.
  unfold source_runs_out, audio_wf.
  destruct (audioContextRef st) as [ctx|] eqn:E; [|now rewrite E].
  intros [Hctx [Hcur Hpaused]]. cbn. split; [now apply source_stop_wf|].
  split.
  - intros current Hc. apply source_stop_keeps. now apply Hcur.
  - intros Hp. destruct (source_stop_lists source ctx) as [_ [Hs _]].
    rewrite Hs. now apply Hpaused.
Qed.

Lemma dispatch_ended_wf (source : nat) (st : TutorChat) :
  audio_wf st -> audio_wf (dispatch_ended source st).
Proof.
  unfold dispatch_ended.
  destruct (audioContextRef st) as [ctx|] eqn:E; [|now intros H].
  destruct (existsb (Nat.eqb source) (endedQueue ctx)); [|now intros H].
  unfold audio_wf. rewrite E. intros [[Hp [Hq Hn]] _]. cbn.
  split; [|split; discriminate]. unfold context_wf. cbn.
  repeat split; try assumption.
  rewrite Forall_forall in *. intros x Hx.
  apply remove_source_In in Hx as [Hx _]. now apply Hq.
Qed.

Lemma toggleTTS_wf (st : TutorChat) :
  audio_wf st -> audio_wf (fst (toggleTTS st)).
Proof.
  unfold toggleTTS, audio_wf.
  destruct (audioContextRef st) as [ctx|] eqn:E.
  - intros [Hctx [Hcur _]].
    destruct (isTTSEnabled st), (currentSourceRef st) as [current|] eqn:Ec;
      cbn; rewrite ?E; cbn; (split; [|split; [|discriminate]]);
      try (now apply source_stop_wf); try exact Hctx;
      try (intros c Hc; rewrite ?Ec in Hc; try discriminate).
    + apply source_stop_keeps. apply Hcur. congruence.
    + apply Hcur. congruence.
  - intros [Hcur _]. rewrite Hcur.
    destruct (isTTSEnabled st); cbn; rewrite E; now split.
Qed.

Lemma togglePauseResume_wf (st : TutorChat) :
  audio_wf st -> audio_wf (togglePauseResume st).
Proof.
  unfold togglePauseResume.
  destruct (audioContextRef st) as [ctx|] eqn:E; [|now intros H].
  destruct (isSpeaking st); cbn [negb]; [|now intros H].
  unfold audio_wf. rewrite E. intros [Hctx [Hcur Hpaused]].
  destruct (state ctx) eqn:Es; cbn; rewrite ?E.
  - split; [exact Hctx|]. split; [exact Hcur | discriminate].
  - split; [exact Hctx|]. split; [exact Hcur | reflexivity].
  - split; [exact Hctx|]. split; [exact Hcur|].
    intros Hp. rewrite Es. now apply Hpaused.
Qed.

(** X7. From the mounted component, over every sequence of playbacks, ends
    of clips, [ended] events, voice toggles and pause toggles, the audio
    cells stay consistent: every node that plays or waits for its [ended]
    event was created by the context, no node plays twice, the node in
    [currentSourceRef] plays or has its [ended] event still to come, and
    [isPaused] is set only while the context is suspended. *)
Theorem audio_cells_consistent
    (atob : jsstring -> option jsstring) (newAudioContext : AudioContext)
    (events : list AudioEvent) :
  fresh_context newAudioContext ->
  audio_wf (fold_left (audio_step atob newAudioContext) events mount).
Proof.
  intros Hfresh.
  assert (Hstep : forall st ev,
            audio_wf st -> audio_wf (audio_step atob newAudioContext st ev)).
  { intros st [clip | source | source | |] Hwf; cbn [audio_step].
    - now apply playAudio_wf.
    - now apply source_runs_out_wf.
    - now apply dispatch_ended_wf.
    - now apply toggleTTS_wf.
    - now apply togglePauseResume_wf. }
  assert (Hrun : forall st, audio_wf st ->
            audio_wf (fold_left (audio_step atob newAudioContext) events st)).
  { induction events as [|ev evs IH]; intros st Hwf; [exact Hwf|].
    cbn [fold_left]. apply IH. now apply Hstep. }
  apply Hrun. now split.
Qed.

Lemma audio_cells_consistent_witness :
  audio_wf (fold_left (audio_step atob_html context32)
              [PlayClip (lit "AAA="); TogglePauseResume;
               PlayClip (lit "AQACAAMA"); EndedEvent 0; ToggleTTS;
               PlayClip (lit "/38="); RunsOut 1]
              mount).
Proof.
  apply (audio_cells_consistent atob_html context32). now repeat split.
Defined.

(** X8. In a consistent state, a playback of a clip that decodes starts a
    new source, which is then live and the one in [currentSourceRef], with
    [isSpeaking] set and [isPaused] cleared. It stops the source that was
    in [currentSourceRef], if any, before it starts the new one, and that
    source is no longer live. Every other handle that was live stays
    live. *)
Theorem playAudio_starts_after_stopping_current
    (atob : jsstring -> option jsstring) (newAudioContext : AudioContext)
    (base64Audio : jsstring) (st : TutorChat) :
  fresh_context newAudioContext ->
  audio_wf st ->
  playable atob (destination (context_in_use newAudioContext st)) base64Audio ->
  let r := playAudio atob newAudioContext base64Audio st in
  exists source,
    currentSourceRef (fst r) = Some source /\
    ~ In source (live_handles st) /\
    isSpeaking (fst r) = true /\ isPaused (fst r) = false /\
    match currentSourceRef st with
    | Some current =>
        snd r = [SourceStop current; SourceStart source] /\
        live_handles (fst r)
        = remove_source current (live_handles st) ++ [source] /\
        ~ In current (live_handles (fst r))
    | None =>
        snd r = [SourceStart source] /\
        live_handles (fst r) = live_handles st ++ [source]
    end.
Proof.
  intros Hfresh Hwf Hplay r.
  destruct (playAudio_success atob newAudioContext base64Audio st Hplay)
    as [Hc [Hcur [Hsp [Hpa Heff]]]].
  fold r in Hc, Hcur, Hsp, Hpa, Heff.
  pose proof (context_in_use_wf newAudioContext Hfresh st Hwf) as [Hp _].
  pose proof (live_context_in_use newAudioContext Hfresh st Hwf) as Hlive.
  set (ctx := context_in_use newAudioContext st) in *.
  set (ctx0 := match state ctx with
               | suspended => setState running ctx | _ => ctx end) in *.
  assert (Hc0 : created ctx0 = created ctx) by (subst ctx0; now destruct (state ctx)).
  assert (Hp0 : playing ctx0 = live_handles st)
    by (subst ctx0; rewrite <- Hlive; now destruct (state ctx)).
  assert (Hnew : ~ In (created ctx) (live_handles st)).
  { rewrite <- Hlive. intros Hin. rewrite Forall_forall in Hp.
    specialize (Hp _ Hin). lia. }
  assert (Hafter : live_handles (fst r)
                   = playing (match currentSourceRef st with
                              | Some current => source_stop current ctx0
                              | None => ctx0
                              end)
                     ++ [created (match currentSourceRef st with
                                  | Some current => source_stop current ctx0
                                  | None => ctx0
                                  end)])
    by (unfold live_handles; now rewrite Hc).
  rewrite Hafter, Hcur, Heff. clear Hafter Hc Hcur Heff.
  destruct (currentSourceRef st) as [current|] eqn:Ecur.
  - destruct (source_stop_lists current ctx0) as [Hcr [_ [Hpl _]]].
    exists (created ctx). rewrite Hcr, Hc0, Hpl, Hp0.
    split; [reflexivity|]. split; [exact Hnew|].
    split; [exact Hsp|]. split; [exact Hpa|].
    split; [reflexivity|]. split; [reflexivity|].
    intros Hin. apply in_app_or in Hin as [Hin | [Heq | []]].
    + apply remove_source_In in Hin as [_ Hne]. congruence.
    + subst current. unfold audio_wf in Hwf.
      unfold ctx, context_in_use in *.
      destruct (audioContextRef st) as [c|] eqn:Ec.
      * destruct Hwf as [[Hpc [Hqc _]] [Hk _]].
        rewrite Forall_forall in Hpc, Hqc.
        destruct (Hk _ Ecur) as [Hin | Hin];
          [specialize (Hpc _ Hin) | specialize (Hqc _ Hin)]; lia.
      * destruct Hwf as [Hw _]. congruence.
  - exists (created ctx). rewrite Hc0, Hp0.
    split; [reflexivity|]. split; [exact Hnew|].
    split; [exact Hsp|]. split; [exact Hpa|]. now split.
Qed.

Lemma playAudio_starts_after_stopping_current_witness :
  let st := fst (playAudio atob_html context32 (lit "AAA=") mount) in
  let r := playAudio atob_html context32 (lit "AQACAAMA") st in
  exists source,
    currentSourceRef (fst r) = Some source /\
    ~ In source (live_handles st) /\
    isSpeaking (fst r) = true /\ isPaused (fst r) = false /\
    snd r = [SourceStop 0; SourceStart source] /\
    live_handles (fst r) = remove_source 0 (live_handles st) ++ [source] /\
    ~ In 0 (live_handles (fst r)).
Proof.
  intros st r.
  apply (playAudio_starts_after_stopping_current atob_html context32
           (lit "AQACAAMA") st).
  - now repeat split.
  - apply (audio_cells_consistent atob_html context32 [PlayClip (lit "AAA=")]).
    now repeat split.
  - eexists _, _. split; reflexivity.
Defined.

(** X9. Pausing does nothing without a context or while nothing is spoken.
    While a clip is spoken on a running context, it suspends the context
    and sets [isPaused], stops no source and leaves [currentSourceRef] and
    the conversation alone; pausing again resumes, and the state is the one
    before the first pause with [isPaused] cleared. *)
Theorem pause_then_resume (st : TutorChat) :
  (audioContextRef st = None \/ isSpeaking st = false ->
   togglePauseResume st = st) /\
  (forall ctx,
     audioContextRef st = Some ctx -> isSpeaking st = true ->
     state ctx = running ->
     let paused := togglePauseResume st in
     isPaused paused = true /\
     audioContextRef paused = Some (setState suspended ctx) /\
     live_handles paused = live_handles st /\
     currentSourceRef paused = currentSourceRef st /\
     same_conversation st paused /\
     togglePauseResume paused = setIsPaused false st).
Proof.
  split.
  - unfold togglePauseResume. intros [-> | ->]; [reflexivity|].
    now destruct (audioContextRef st).
  - intros ctx Hctx Hsp Hrun paused. subst paused.
    unfold togglePauseResume. rewrite Hctx, Hsp, Hrun. cbn.
    unfold live_handles. rewrite Hctx.
    repeat split. rewrite Hsp. cbn.
    destruct st as [m i im l t sp pa li rv cp ac cs].
    cbn in *. subst ac sp. destruct ctx as [s dev n pl q]. cbn in *.
    now subst s.
Qed.

Lemma pause_then_resume_witness :
  let st := fst (playAudio atob_html context32 (lit "AAA=") mount) in
  isPaused (togglePauseResume st) = true /\
  live_handles (togglePauseResume st) = [0] /\
  togglePauseResume (togglePauseResume st) = setIsPaused false st.
Proof.
  intros st. destruct (pause_then_resume st) as [_ H].
  destruct (H context32_playing0) as [H1 [_ [H3 [_ [_ H6]]]]];
    try reflexivity.
  split; [exact H1|]. split; [exact H3 | exact H6].
Defined.

(** X10. [toggleTTS] flips the voice switch, clears [isPaused] and leaves
    the conversation, [isSpeaking] and [currentSourceRef] alone. Turning the
    voice on stops nothing. Turning it off stops the source in
    [currentSourceRef], which is then no longer live; the other handles
    that were live stay live. *)
Theorem toggleTTS_stops_current (st : TutorChat) :
  let r := toggleTTS st in
  isTTSEnabled (fst r) = negb (isTTSEnabled st) /\
  isPaused (fst r) = false /\
  isSpeaking (fst r) = isSpeaking st /\
  currentSourceRef (fst r) = currentSourceRef st /\
  same_conversation st (fst r) /\
  (isTTSEnabled st = false ->
   snd r = [] /\ live_handles (fst r) = live_handles st) /\
  (forall ctx current,
     isTTSEnabled st = true ->
     audioContextRef st = Some ctx -> currentSourceRef st = Some current ->
     snd r = [SourceStop current] /\
     live_handles (fst r) = remove_source current (live_handles st) /\
     ~ In current (live_handles (fst r))).
Proof.
  intros r. subst r. unfold toggleTTS.
  split; [|split; [|split; [|split; [|split; [|split]]]]].
  1-5: destruct (isTTSEnabled st) eqn:Et, (currentSourceRef st) eqn:Ec,
         (audioContextRef st) eqn:Ea; cbn; rewrite ?Et, ?Ec;
         now repeat split.
  - intros ->. now split.
  - intros ctx current -> Hctx Hcur. rewrite Hctx, Hcur.
    unfold live_handles. rewrite Hctx. cbn.
    destruct (source_stop_lists current ctx) as [_ [_ [Hpl _]]].
    rewrite Hpl. repeat split.
    intros Hin. apply remove_source_In in Hin as [_ Hne]. congruence.
Qed.

Lemma toggleTTS_stops_current_witness :
  let st := setIsTTSEnabled true
              (fst (playAudio atob_html context32 (lit "AAA=") mount)) in
  snd (toggleTTS st) = [SourceStop 0] /\
  live_handles (fst (toggleTTS st)) = remove_source 0 (live_handles st) /\
  ~ In 0 (live_handles (fst (toggleTTS st))).
Proof.
  intros st.
  destruct (toggleTTS_stops_current st) as [_ [_ [_ [_ [_ [_ H]]]]]].
  apply (H context32_playing0 0); reflexivity.
Defined.

(* ================================================================== *)
(** * Speech capture *)
(* ================================================================== *)

Lemma transcript_concat (l : list jsstring) (acc : jsstring) :
  fold_left (fun t r => t ++ r) l acc = acc ++ concat l.
Proof.
  revert acc; induction l as [|r l IH]; intros acc; simpl.
  - now rewrite app_nil_r.
  - now rewrite IH, app_assoc.
Qed.

Lemma onresult_run (events : list RecognitionEvent) (st : TutorChat) :
  let heard := fold_left (fun s e => onresult e s) events st in
  input heard
  = match rev events with
    | [] => input st
    | e :: _ => concat (skipn (resultIndex e) (results e))
    end /\
  heard = setInput (input heard) st.
Proof.
  induction events as [|e events IH] using rev_ind; cbn zeta.
  - split; [reflexivity|]. now destruct st.
  - rewrite fold_left_app, rev_app_distr. cbn [fold_left rev app].
    destruct IH as [_ IH]. rewrite IH at 1 2. unfold onresult.
    rewrite transcript_concat. cbn. now split.
Qed.

(** X11. Speech capture, from a state that is not listening, in a browser
    that has recognition: the toggle clears the input, starts the
    recognition and sets [isListening]. Over any run of recognition events
    the input is what the last event gives, the transcripts of its results
    from [resultIndex] on, joined, and no other cell changes. A second
    toggle asks the recognition to stop and changes no cell: [isListening]
    falls when the recognition ends. Without recognition in the browser the
    toggle only alerts. *)
Theorem listening_overwrites_input
    (events : list RecognitionEvent) (st : TutorChat) :
  isListening st = false ->
  let started := toggleListening true st in
  let heard := fold_left (fun s e => onresult e s) events (fst started) in
  snd started = [recognition_start] /\
  input heard
  = match rev events with
    | [] => []
    | e :: _ => concat (skipn (resultIndex e) (results e))
    end /\
  heard = setIsListening true (setInput (input heard) st) /\
  toggleListening true heard = (heard, [recognition_stop]) /\
  onend heard = setInput (input heard) st /\
  toggleListening false st = (st, [alert_not_supported]).
Proof.
  intros Hidle started heard. subst heard started.
  assert (Hstart : toggleListening true st
                   = (setIsListening true (setInput [] st),
                      [recognition_start]))
    by (unfold toggleListening; now rewrite Hidle).
  rewrite Hstart. cbn [fst snd].
  destruct (onresult_run events (setIsListening true (setInput [] st)))
    as [Hin Hall].
  cbv zeta in Hin, Hall.
  set (heard := fold_left (fun s e => onresult e s) events
                  (setIsListening true (setInput [] st))) in *.
  split; [reflexivity|]. split; [exact Hin|].
  assert (Hheard : heard = setIsListening true (setInput (input heard) st))
    by (rewrite Hall at 1; reflexivity).
  split; [exact Hheard|]. split; [|split].
  - assert (Hl : isListening heard = true) by now rewrite Hheard.
    unfold toggleListening. now rewrite Hl.
  - rewrite Hheard at 1. unfold onend. destruct st. cbn in *.
    now subst.
  - reflexivity.
Qed.

Lemma listening_overwrites_input_witness :
  let events := [mkRecognitionEvent 0 [lit "what is"];
                 mkRecognitionEvent 0 [lit "what is "; lit "two plus two"];
                 mkRecognitionEvent 1 [lit "what is "; lit "2 + 2"]] in
  let st := setInput (lit "typed before") mount in
  input (fold_left (fun s e => onresult e s) events
           (fst (toggleListening true st)))
  = lit "2 + 2".
Proof.
  intros events st.
  destruct (listening_overwrites_input events st) as [_ [H _]];
    [reflexivity|].
  exact H.
Defined.

(* ================================================================== *)
(** * Sending: every outcome, and retrying after a failure *)
(* ================================================================== *)

Lemma lit_inj (s t : string) : lit s = lit t -> s = t.
Proof.
  unfold lit. intros H.
  rewrite <- (string_of_list_ascii_of_string s),
          <- (string_of_list_ascii_of_string t).
  f_equal. revert H.
  generalize (list_ascii_of_string s) (list_ascii_of_string t).
  induction l as [|a l IH]; intros [|b l']; simpl; try discriminate;
    [reflexivity|].
  intros H. injection H as Hab Hl. f_equal; [|now apply IH].
  rewrite <- (ascii_N_embedding a), <- (ascii_N_embedding b). now rewrite Hab.
Qed.

(** Two times have the same decimal string only when they are equal. *)
Lemma toString_inj (n m : N) : toString n = toString m -> n = m.
Proof.
  unfold toString. intros H. apply lit_inj in H.
  assert (Hnn : forall k, N.to_uint k <> Decimal.Nil).
  { intros [|p]; [discriminate|]. apply DecimalPos.Unsigned.to_uint_nonnil. }
  pose proof (NilZero.usu _ (Hnn n)) as Hn.
  pose proof (NilZero.usu _ (Hnn m)) as Hm.
  rewrite H in Hn. rewrite Hn in Hm. injection Hm as Hm.
  now apply DecimalN.Unsigned.to_uint_inj.
Qed.

Lemma filter_all (A : Type) (f : A -> bool) (l : list A) :
  (forall x, In x l -> f x = true) -> filter f l = l.
Proof.
  induction l as [|a l IH]; intros H; [reflexivity|].
  simpl. rewrite (H a (or_introl eq_refl)). f_equal. apply IH.
  intros x Hx. apply H. now right.
Qed.

Lemma or_undefined_idempotent (s : option jsstring) :
  or_undefined (or_undefined s) = or_undefined s.
Proof. destruct s as [[|c s]|]; reflexivity. Qed.

Lemma Js_eqb_neq (s t : jsstring) : s <> t -> Js.eqb s t = false.
Proof.
  intros H. destruct (Js.eqb s t) eqn:E; [|reflexivity].
  now apply Js_eqb_eq in E.
Qed.

(** The continuation of [handleSend] in terms of the message it appends. *)
Lemma handleSend_resume_appends (p : Pending) (later : N)
    (settled : jsstring + Thrown) (st : TutorChat) :
  exists bot speak,
    handleSend_resume p later settled st
    = (setLoading false (setMessages (fun prev => prev ++ [bot]) st),
       speak ++ [FocusInput]) /\
    ChatMessage.id bot = toString (later + 1) /\
    ChatMessage.role bot = model /\
    ChatMessage.image bot = None /\
    match settled with
    | inl aiResponse => ChatMessage.text bot = aiResponse
    | inr _ => isError (render bot) = true
    end.
Proof.
  destruct settled as [aiResponse | [e | m | typeError]];
    cbn [handleSend_resume].
  - eexists _, _. now repeat split.
  - eexists _, _. split; [reflexivity|]. repeat split.
    match goal with
    | |- isError (render ?b) = true =>
        destruct (render_encoded b (type e) (message e) eq_refl) as [H _]
    end.
    exact H.
  - eexists _, _. split; [reflexivity|]. repeat split.
  - eexists _, _. split; [reflexivity|]. repeat split.
Qed.

(** X12. Every send that passes the guard, however [solveQuestion]
    settles, appends two messages, the user message and then a model
    message made at the settlement, and leaves [loading] cleared: in
    between the input and the pending image are empty and [loading] is
    set. The model message carries the response when the call succeeded
    and is error-tagged when it failed, whatever was thrown. *)
Theorem every_send_settles
    (subject : Subject) (now later : N) (settled : jsstring + Thrown)
    (st : TutorChat) :
  truthy (trim (input st)) = true \/ truthy_opt (image st) = true ->
  let userMsg :=
    ChatMessage.mk (toString now) user (input st) (or_undefined (image st)) in
  exists st1 effects p bot,
    handleSend_begin subject now st = (st1, effects, Some p) /\
    loading st1 = true /\ input st1 = [] /\ image st1 = None /\
    messages (fst (handleSend_resume p later settled st1))
    = messages st ++ [userMsg; bot] /\
    loading (fst (handleSend_resume p later settled st1)) = false /\
    ChatMessage.id bot = toString (later + 1) /\
    ChatMessage.role bot = model /\
    match settled with
    | inl aiResponse => ChatMessage.text bot = aiResponse
    | inr _ => isError (render bot) = true
    end.
Proof.
  intros Hguard userMsg.
  pose proof (handleSend_begin_sends subject now st Hguard) as Hb.
  cbv zeta in Hb. fold userMsg in Hb.
  destruct (handleSend_resume_appends
              (mkPending (input st) userMsg (isTTSEnabled st)) later settled
              (setLoading true (setImage None (setInput []
                 (setMessages (fun prev => prev ++ [userMsg]) st)))))
    as [bot [speak [Hr [Hid [Hrole [_ Hkind]]]]]].
  eexists _, _, _, bot. split; [exact Hb|].
  rewrite Hr. cbn. rewrite <- app_assoc. now repeat split.
Qed.

Lemma every_send_settles_witness :
  let st := setInput (lit "2+2?") mount in
  exists st1 effects p bot,
    handleSend_begin Mathematics 1700 st = (st1, effects, Some p) /\
    loading st1 = true /\ input st1 = [] /\ image st1 = None /\
    messages (fst (handleSend_resume p 1800 (inr (ThrownOther None)) st1))
    = messages st ++ [ChatMessage.mk (lit "1700") user (lit "2+2?") None; bot]
    /\
    loading (fst (handleSend_resume p 1800 (inr (ThrownOther None)) st1))
    = false /\
    ChatMessage.id bot = toString (1800 + 1) /\
    ChatMessage.role bot = model /\
    isError (render bot) = true.
Proof.
  intros st.
  apply (every_send_settles Mathematics 1700 1800 (inr (ThrownOther None)) st).
  left. reflexivity.
Defined.

(** X13. A failed send followed by retry on the error message it appended
    gives the question back: the error message is gone, the transcript is
    the old one followed by the user message of the send, the input field
    holds the text that was sent and the pending image the image that was
    sent, [loading] is cleared and nothing is issued. This holds when the
    id of the error message is new: the two readings of the clock do not
    make the same id, and no older message has it. *)
Theorem failed_send_then_retry
    (subject : Subject) (now later : N) (error : Thrown) (st : TutorChat) :
  truthy (trim (input st)) = true \/ truthy_opt (image st) = true ->
  now <> (later + 1)%N ->
  (forall x, In x (messages st) -> ChatMessage.id x <> toString (later + 1)) ->
  let userMsg :=
    ChatMessage.mk (toString now) user (input st) (or_undefined (image st)) in
  exists st1 effects p bot,
    handleSend_begin subject now st = (st1, effects, Some p) /\
    let st2 := fst (handleSend_resume p later (inr error) st1) in
    messages st2 = messages st ++ [userMsg; bot] /\
    isError (render bot) = true /\
    snd (retry_onClick bot st2) = [] /\
    messages (fst (retry_onClick bot st2)) = messages st ++ [userMsg] /\
    input (fst (retry_onClick bot st2)) = input st /\
    image (fst (retry_onClick bot st2)) = or_undefined (image st) /\
    loading (fst (retry_onClick bot st2)) = false.
Proof.
  intros Hguard Hclock Hold userMsg.
  pose proof (handleSend_begin_sends subject now st Hguard) as Hb.
  cbv zeta in Hb. fold userMsg in Hb.
  destruct (handleSend_resume_appends
              (mkPending (input st) userMsg (isTTSEnabled st)) later
              (inr error)
              (setLoading true (setImage None (setInput []
                 (setMessages (fun prev => prev ++ [userMsg]) st)))))
    as [bot [speak [Hr [Hid [Hrole [_ Herr]]]]]].
  eexists _, _, _, bot. split; [exact Hb|].
  rewrite Hr. cbn [fst]. 
  assert (Hm : messages (setLoading false
                 (setMessages (fun prev => prev ++ [bot])
                    (setLoading true (setImage None (setInput []
                       (setMessages (fun prev => prev ++ [userMsg]) st))))))
               = messages st ++ [userMsg; bot])
    by (cbn; now rewrite <- app_assoc).
  split; [exact Hm|]. split; [exact Herr|].
  unfold retry_onClick. rewrite Hm.
  change (messages st ++ [userMsg; bot])
    with (messages st ++ userMsg :: [bot]) at 1.
  rewrite (lastUserMsg_found (messages st) [bot] userMsg eq_refl)
    by (intros x [<- | []]; exact Hrole).
  cbn [fst snd messages input image loading setMessages setInput setImage
       setLoading ChatMessage.text ChatMessage.image userMsg].
  split; [reflexivity|]. split; [|split; [reflexivity|split;
    [apply or_undefined_idempotent | reflexivity]]].
  rewrite <- app_assoc, filter_app.
  rewrite filter_all.
  - f_equal. cbn [filter app ChatMessage.id]. rewrite Hid.
    rewrite Js_eqb_neq, Js_eqb_refl; [reflexivity|].
    intros H. apply toString_inj in H. congruence.
  - intros x Hx. rewrite Hid. apply negb_true_iff, Js_eqb_neq.
    now apply Hold.
Qed.

Lemma failed_send_then_retry_witness :
  let st := setImage (Some (lit "data:image/png;base64,AAAA"))
              (setInput (lit "What is this?") mount) in
  exists st1 effects p bot,
    handleSend_begin ICT 1700 st = (st1, effects, Some p) /\
    let st2 :=
      fst (handleSend_resume p 1800
             (inr (ThrownStudyAIError
                     (mkStudyAIError timeout
                        (lit "The request took too long. The server might be busy."))))
             st1) in
    messages st2
    = messages st ++
      [ChatMessage.mk (lit "1700") user (lit "What is this?")
         (Some (lit "data:image/png;base64,AAAA")); bot] /\
    isError (render bot) = true /\
    snd (retry_onClick bot st2) = [] /\
    messages (fst (retry_onClick bot st2))
    = messages st ++
      [ChatMessage.mk (lit "1700") user (lit "What is this?")
         (Some (lit "data:image/png;base64,AAAA"))] /\
    input (fst (retry_onClick bot st2)) = lit "What is this?" /\
    image (fst (retry_onClick bot st2))
    = Some (lit "data:image/png;base64,AAAA") /\
    loading (fst (retry_onClick bot st2)) = false.
Proof.
  intros st.
  apply (failed_send_then_retry ICT 1700 1800
           (ThrownStudyAIError
              (mkStudyAIError timeout
                 (lit "The request took too long. The server might be busy.")))
           st).
  - left. reflexivity.
  - discriminate.
  - intros x [].
Defined.

(* ================================================================== *)
(** * The AI client: what a failure looks like, what a request carries *)
(* ================================================================== *)

(** When the SDK does not itself throw a [StudyAIError], a failure of
    [solveQuestion] is one of seven errors, or the [TypeError] raised in
    the [catch] block on a thrown value whose message cannot be read. *)
Lemma solveQuestion_failures
    (toLowerCase : jsstring -> jsstring) (onLine : bool)
    (prompt subject : jsstring) (image : option jsstring)
    (api : GenerateContentOutcome) (t : Thrown) :
  (forall e', api <> Rejected (ThrownStudyAIError e')) ->
  snd (solveQuestion toLowerCase onLine prompt subject image api) = inr t ->
  (exists e,
     t = ThrownStudyAIError e /\
     In e
       [mkStudyAIError network
          (lit "You appear to be offline. Please check your internet connection.");
        mkStudyAIError safety
          (lit "This content was flagged by safety filters. Please try rephrasing your question.");
        mkStudyAIError server
          (lit "The AI returned an empty response. Please try again.");
        mkStudyAIError network
          (lit "Network connection failed. Please check your internet.");
        mkStudyAIError timeout
          (lit "The request took too long. The server might be busy.");
        mkStudyAIError server
          (lit "AI capacity reached. Please wait a minute and try again.");
        mkStudyAIError server
          (lit "The study server encountered an error. Please try again later.")])
  \/
  (exists typeError,
     onLine = true /\ api = Rejected (ThrownUnreadable typeError) /\
     t = ThrownOther (Some typeError)).
Proof.
  intros Hapi H. unfold solveQuestion in H.
  destruct onLine; cbn [negb] in H.
  - destruct api as [text fr | [e' | m | typeError]].
    + left. cbn [solveQuestion_try] in H. destruct (truthy_opt text).
      * discriminate.
      * destruct fr as [r|]; [destruct (Js.eqb r (lit "SAFETY"))|];
          cbn in H; injection H as <-; eexists; (split; [reflexivity|]);
          cbn; auto 8.
    + exfalso. now apply (Hapi e').
    + left. cbn [solveQuestion_try snd] in H. unfold classify in H.
      destruct (_ || _ || _) in H;
        [injection H as <-; eexists; (split; [reflexivity|]); cbn; auto 8|].
      destruct (_ || _ || _) in H;
        [injection H as <-; eexists; (split; [reflexivity|]); cbn; auto 8|].
      destruct (_ || _ || _) in H; injection H as <-; eexists;
        (split; [reflexivity|]); cbn; auto 8.
    + right. cbn in H. injection H as <-. exists typeError. now repeat split.
  - left. cbn in H. injection H as <-. eexists. split; [reflexivity|].
    now left.
Qed.

(** X14. Whenever [solveQuestion] fails, the SDK not having thrown a
    [StudyAIError] of its own, the controller appends one message, with no
    explanation part, and one of two things holds. Either the failure is a
    [StudyAIError], which is then never of type unknown and whose message
    is a single line without the explanation marker: the appended message
    is displayed in full, the content of its bubble being the message of
    the error, under the type of the error. Or the SDK threw a value whose
    message cannot be read, on line: [solveQuestion] then fails with the
    [TypeError] raised in its [catch] block, which is no [StudyAIError],
    and the bubble shows the text the controller has for such a failure,
    under the type unknown. *)
Theorem solveQuestion_failure_displayed
    (toLowerCase : jsstring -> jsstring) (onLine : bool)
    (prompt subject : jsstring) (image : option jsstring)
    (api : GenerateContentOutcome) (t : Thrown)
    (p : Pending) (later : N) (st : TutorChat) :
  (forall e', api <> Rejected (ThrownStudyAIError e')) ->
  snd (solveQuestion toLowerCase onLine prompt subject image api) = inr t ->
  exists bot,
    messages
      (fst (handleSend_resume p later
              (snd (solveQuestion toLowerCase onLine prompt subject image api))
              st))
    = messages st ++ [bot] /\
    explanation (render bot) = None /\
    ((exists e,
        t = ThrownStudyAIError e /\
        type e <> unknown /\
        singleLine (message e) = true /\
        includes EXPLANATION_MARKER (message e) = false /\
        errorType (render bot) = ErrorType_name (type e) /\
        displayContent (render bot) = message e /\
        answer (render bot) = Some (message e))
     \/
     (exists typeError,
        onLine = true /\
        api = Rejected (ThrownUnreadable typeError) /\
        t = ThrownOther (Some typeError) /\
        errorType (render bot) = lit "unknown" /\
        displayContent (render bot)
        = lit "I'm sorry, I couldn't process your request right now." /\
        answer (render bot)
        = Some (lit "I'm sorry, I couldn't process your request right now."))).
Proof.
  intros Hapi H.
  destruct (solveQuestion_failures toLowerCase onLine prompt subject image
              api t Hapi H) as [[e [-> Hin]] | [typeError [-> [-> ->]]]].
  - rewrite H.
    assert (Hfacts : type e <> unknown /\ singleLine (message e) = true /\
                     includes EXPLANATION_MARKER (message e) = false).
    { cbn [In] in Hin.
      repeat (destruct Hin as [<- | Hin];
              [split; [discriminate | split; reflexivity]|]).
      contradiction. }
    destruct Hfacts as [Hk [Hline Hfree]].
    eexists. split; [reflexivity|].
    match goal with
    | |- explanation (render ?b) = _ /\ _ =>
        destruct (render_encoded b (type e) (message e) eq_refl)
          as [_ [Hty Hd]]
    end.
    rewrite (greedy_dots_singleLine _ Hline) in Hd.
    unfold render in *. cbn [ChatMessage.text] in *.
    rewrite isError_encoded, ERROR_MODE_match_encoded in *.
    cbn [displayContent answer explanation errorType] in *. rewrite Hd.
    rewrite (split_marker_absent _ Hfree). cbn [hd nth_error].
    split; [reflexivity|]. left. exists e. now repeat split.
  - eexists. split; [reflexivity|]. split; [reflexivity|].
    right. exists typeError. now repeat split.
Qed.

Lemma solveQuestion_failure_displayed_witness :
  let e := mkStudyAIError server
             (lit "AI capacity reached. Please wait a minute and try again.") in
  let api := Rejected (ThrownOther (Some (lit "429 Too Many Requests"))) in
  let p := mkPending (lit "2+2?")
             (ChatMessage.mk (lit "1700") user (lit "2+2?") None) false in
  exists bot,
    messages
      (fst (handleSend_resume p 1800
              (snd (solveQuestion toLowerCase_ascii true (lit "2+2?")
                      (subject_name Mathematics) None api))
              mount))
    = messages mount ++ [bot] /\
    explanation (render bot) = None.
Proof.
  intros e api p.
  destruct (solveQuestion_failure_displayed toLowerCase_ascii true
              (lit "2+2?") (subject_name Mathematics) None api
              (ThrownStudyAIError e) p 1800 mount) as [bot [H1 [H2 _]]].
  - discriminate.
  - reflexivity.
  - exists bot. now split.
Defined.

(** A thrown value without a readable message at work: the SDK rejects
    with [null]; reading its message in the [catch] block raises a
    [TypeError], with which [solveQuestion] fails; the controller shows
    its own text under the type unknown. *)
Example unreadable_rejection_shown_unknown :
  let api := Rejected (ThrownUnreadable
                         (lit "Cannot read properties of null (reading 'message')")) in
  let r := snd (solveQuestion toLowerCase_ascii true (lit "2+2?")
                  (subject_name Mathematics) None api) in
  let p := mkPending (lit "2+2?")
             (ChatMessage.mk (lit "1700") user (lit "2+2?") None) false in
  failure_type r = None /\
  map (fun bot => (errorType (render bot), displayContent (render bot)))
      (messages (fst (handleSend_resume p 1800 r mount)))
  = [(lit "unknown",
      lit "I'm sorry, I couldn't process your request right now.")].
Proof. repeat split. Qed.

Lemma split_comma (header payload : jsstring) :
  includes (lit ",") header = false ->
  includes (lit ",") payload = false ->
  split (lit ",") (header ++ lit "," ++ payload) = [header; payload].
Proof.
  intros Hh Hp. change (lit ",") with (44%N :: []) in *. unfold split.
  rewrite (split_go_first 44%N [] (fun H => H) [] header payload Hh).
  now rewrite split_go_absent.
Qed.

(** X15. The request of [solveQuestion] carries, as inline data, exactly
    the payload of the image: of a data URL made of a header, a comma and a
    payload, neither with a comma in it, the payload. Without an image, or
    with an empty one, it carries no inline data; for an image without a
    comma the inline data has no payload ([undefined]). *)
Theorem request_carries_payload
    (prompt subject header payload url : jsstring) :
  (includes (lit ",") header = false ->
   includes (lit ",") payload = false ->
   req_inlineData
     (solveQuestion_request prompt subject
        (Some (header ++ lit "," ++ payload)))
   = Some (Some payload)) /\
  (includes (lit ",") url = false -> url <> [] ->
   req_inlineData (solveQuestion_request prompt subject (Some url))
   = Some None) /\
  req_inlineData (solveQuestion_request prompt subject None) = None /\
  req_inlineData (solveQuestion_request prompt subject (Some [])) = None.
Proof.
  split; [|split; [|split; reflexivity]].
  - intros Hh Hp. unfold solveQuestion_request. cbn [req_inlineData].
    rewrite (split_comma header payload Hh Hp).
    now destruct header.
  - intros Hu Hne. unfold solveQuestion_request. cbn [req_inlineData].
    destruct url as [|c url]; [congruence|]. cbn [truthy].
    change (lit ",") with (44%N :: []) in *. unfold split.
    now rewrite split_go_absent.
Qed.

Lemma request_carries_payload_witness :
  req_inlineData
    (solveQuestion_request (lit "What is this?") (lit "ICT")
       (Some (lit "data:image/png;base64" ++ lit "," ++ lit "iVBORw0KGgo=")))
  = Some (Some (lit "iVBORw0KGgo=")) /\
  req_inlineData
    (solveQuestion_request (lit "What is this?") (lit "ICT")
       (Some (lit "blob:abc")))
  = Some None.
Proof.
  destruct (request_carries_payload (lit "What is this?") (lit "ICT")
              (lit "data:image/png;base64") (lit "iVBORw0KGgo=")
              (lit "blob:abc")) as [H1 [H2 _]].
  split; [apply H1; reflexivity | apply H2; [reflexivity | discriminate]].
Defined.

(* ================================================================== *)
(** * Past papers: generation, the cache and its keys *)
(* ================================================================== *)









(** The subject changed while a paper is being generated: the year 2019 is
    clicked with Mathematics selected, then the French button, and then
    [generatePastPaper] returns. The paper goes into the cache under the
    key of Mathematics, and nothing is on display, the current key being
    that of French. *)
Example subject_changed_while_generating :
  let api := Response (Some (lit "PAPER")) None in
  let st1 := QuestionDownloader.handleGenerate_begin (lit "2019")
               QuestionDownloader.mount in
  let away := QuestionDownloader.subject_onClick French (fst st1) in
  let st2 :=
    match snd st1 with
    | Some p =>
        QuestionDownloader.handleGenerate_resume p
          (inl (snd (generatePastPaper
                       (template (QuestionDownloader.subject p))
                       (QuestionDownloader.year p) api)))
          away
    | None => away
    end in
  QuestionDownloader.isGenerating away = true /\
  QuestionDownloader.paperCache st2
  = [(lit "Mathematics-2019", lit "PAPER")] /\
  QuestionDownloader.currentPaperKey st2 = lit "French-2019" /\
  QuestionDownloader.paperContent st2 = None.
Proof. repeat split. Qed.

Lemma split_dash (subject year : jsstring) :
  includes (lit "-") subject = false ->
  includes (lit "-") year = false ->
  split (lit "-") (subject ++ lit "-" ++ year) = [subject; year].
Proof.
  intros Hs Hy. change (lit "-") with (45%N :: []) in *. unfold split.
  rewrite (split_go_first 45%N [] (fun H => H) [] subject year Hs).
  now rewrite split_go_absent.
Qed.

Lemma YEARS_no_dash (year : jsstring) :
  In year YEARS -> includes (lit "-") year = false.
Proof.
  assert (H : forallb (fun y => negb (includes (lit "-") y)) YEARS = true)
    by reflexivity.
  rewrite forallb_forall in H. intros Hin.
  now apply negb_true_iff, H.
Qed.

Lemma subject_name_no_dash (s : Subject) :
  includes (lit "-") (subject_name s) = false.
Proof. destruct s; reflexivity. Qed.

(** X17. A key of the past paper cache gives back what it was made of: for
    every subject of the application and every year of [YEARS], a click on
    the "Recently Viewed" button of the key made from them selects that
    subject and that year again, so that the current key is the key
    clicked and the paper on display is the one cached under it. *)
Theorem recent_reopens_paper
    (s : Subject) (year : jsstring) (st : QuestionDownloader.t) :
  In year YEARS ->
  let key := QuestionDownloader.paperKey (Some (subject_name s)) (Some year) in
  let st' := QuestionDownloader.recent_onClick key st in
  QuestionDownloader.selectedSubject st' = Some (subject_name s) /\
  QuestionDownloader.selectedYear st' = Some year /\
  QuestionDownloader.currentPaperKey st' = key /\
  QuestionDownloader.paperContent st'
  = obj_get key (QuestionDownloader.paperCache st) /\
  QuestionDownloader.paperCache st' = QuestionDownloader.paperCache st.
Proof.
  intros Hyear key st'. subst st' key.
  unfold QuestionDownloader.recent_onClick, QuestionDownloader.paperKey.
  cbn [template].
  rewrite (split_dash _ _ (subject_name_no_dash s) (YEARS_no_dash _ Hyear)).
  now repeat split.
Qed.

Lemma recent_reopens_paper_witness :
  let st := snd (QuestionDownloader.year_onClick
                   (Response (Some (lit "PAPER")) None) (lit "2012")
                   (QuestionDownloader.setSelectedSubject
                      (Some (lit "English Language"))
                      QuestionDownloader.mount)) in
  let st1 := QuestionDownloader.setSelectedSubject (Some (lit "French")) st in
  QuestionDownloader.recentlyViewed st1 = [lit "English Language-2012"] /\
  QuestionDownloader.paperContent st1 = None /\
  QuestionDownloader.paperContent
    (QuestionDownloader.recent_onClick (lit "English Language-2012") st1)
  = Some (lit "PAPER").
Proof.
  intros st st1. split; [reflexivity|]. split; [reflexivity|].
  destruct (recent_reopens_paper EnglishLanguage (lit "2012") st1)
    as [_ [_ [_ [H _]]]].
  - cbv. tauto.
  - cbv zeta in H. etransitivity; [exact H | reflexivity].
Defined.

(* ================================================================== *)
(** * Navigation *)
(* ================================================================== *)

(** X18. Over every sequence of clicks on the controls that are on the
    page, a subject is selected only on the study tab, so the chat is
    mounted exactly when a subject is selected; and a click on the Past
    Papers or the progress tab always leaves no subject selected: coming
    back to the study tab shows the subject cards, not the chat that was
    left. *)
Theorem chat_only_on_study_tab (controls : list App.Control) :
  let st := fold_left App.click controls App.mount in
  (App.selectedSubject st <> None -> App.activeTab st = App.study) /\
  (App.TutorChat_mounted st = true <-> App.selectedSubject st <> None) /\
  (forall tab, tab <> App.study ->
     App.selectedSubject (App.click st (App.TabButton tab)) = None /\
     App.TutorChat_mounted
       (App.click (App.click st (App.TabButton tab))
          (App.TabButton App.study)) = false).
Proof.
  intros st.
  assert (Hinv : App.selectedSubject st <> None -> App.activeTab st = App.study).
  { subst st.
    assert (Hstep : forall s c,
              (App.selectedSubject s <> None -> App.activeTab s = App.study) ->
              App.selectedSubject (App.click s c) <> None ->
              App.activeTab (App.click s c) = App.study).
    { intros [subj tab] c Hs. unfold App.click.
      destruct c as [| t | id | |]; cbn in *.
      - congruence.
      - destruct t; cbn; auto; congruence.
      - destruct tab; cbn; auto; destruct subj; cbn; auto.
      - destruct tab; cbn; auto; destruct subj; cbn; auto; congruence.
      - destruct tab; cbn; auto; destruct subj; cbn; auto; congruence. }
    assert (Hrun : forall s,
              (App.selectedSubject s <> None -> App.activeTab s = App.study) ->
              App.selectedSubject (fold_left App.click controls s) <> None ->
              App.activeTab (fold_left App.click controls s) = App.study).
    { induction controls as [|c cs IH]; intros s Hs; [exact Hs|].
      cbn [fold_left]. apply IH. now apply Hstep. }
    apply Hrun. cbn. congruence. }
  split; [exact Hinv|]. split.
  - unfold App.TutorChat_mounted. destruct st as [[id|] tab]; cbn in *.
    + rewrite Hinv by discriminate. split; [discriminate | reflexivity].
    + destruct tab; split; congruence.
  - intros tab Htab. destruct tab; [congruence | |]; now split.
Qed.

Lemma chat_only_on_study_tab_witness :
  let st := fold_left App.click
              [App.Card ICT; App.BrowsePastPapers; App.TabButton App.mock;
               App.Back; App.TabButton App.study]
              App.mount in
  App.selectedSubject st = None /\ App.TutorChat_mounted st = false.
Proof.
  intros st.
  destruct (chat_only_on_study_tab
              [App.Card ICT; App.BrowsePastPapers]) as [_ [_ H]].
  destruct (H App.mock) as [H1 H2]; [discriminate|].
  split; [reflexivity | exact H2].
Defined.

(* ================================================================== *)
(** * Decoded buffers: shape and range *)
(* ================================================================== *)

Lemma Int16Array_Some (n : nat) (data : list Byte.byte) (d : list Z) :
  length data <= n ->
  Int16Array data = Some d ->
  length data = 2 * length d /\
  Forall (fun s => (-32768 <= s < 32768)%Z) d.
Proof.
  revert data d; induction n as [|n IH]; intros data d Hn H.
  - destruct data; [|simpl in Hn; lia]. injection H as <-. now split.
  - destruct data as [|x [|y data]]; cbn [Int16Array] in H.
    + injection H as <-. now split.
    + discriminate.
    + destruct (Int16Array data) as [d'|] eqn:E; [|discriminate].
      injection H as <-. simpl in Hn.
      destruct (IH data d' ltac:(lia) E) as [Hl Hf].
      split; [simpl; lia|]. constructor; [apply int16_range | exact Hf].
Qed.

Lemma store_length (i : nat) (v : float) (a : list float) :
  length (store i v a) = length a.
Proof.
  unfold store. destruct (Nat.ltb_spec i (length a)); [|reflexivity].
  rewrite length_app, length_firstn. cbn [length]. rewrite length_skipn. lia.
Qed.

Lemma store_Forall (P : float -> Prop) (i : nat) (v : float)
    (a : list float) :
  Forall P a -> (i < length a -> P v) -> Forall P (store i v a).
Proof.
  intros Ha Hv. unfold store.
  destruct (Nat.ltb_spec i (length a)); [|exact Ha].
  rewrite Forall_forall in *. intros x Hx.
  apply in_app_or in Hx as [Hx | [<- | Hx]].
  - apply Ha. rewrite <- (firstn_skipn i a). apply in_or_app. now left.
  - now apply Hv.
  - apply Ha. rewrite <- (firstn_skipn (S i) a). apply in_or_app. now right.
Qed.

(** The inner loop keeps the length of the channel, and keeps a property of
    its elements that holds of what it stores within bounds. *)
Lemma fill_channel_keeps (P : float -> Prop) (d : list Z) (c ch : nat)
    (iterations : nat) (a : list float) :
  Forall P a ->
  (forall i, i < length a -> P (sample d (i * c + ch))) ->
  length (fill_channel d c ch iterations a) = length a /\
  Forall P (fill_channel d c ch iterations a).
Proof.
  unfold fill_channel. generalize (seq 0 iterations). intros l.
  revert a; induction l as [|i l IH]; intros a Ha Hs; [now split|].
  cbn [fold_left].
  destruct (IH (store i (sample d (i * c + ch)) a)) as [Hl Hf].
  - apply store_Forall; [exact Ha | apply Hs].
  - intros j Hj. apply Hs. now rewrite store_length in Hj.
  - split; [now rewrite Hl, store_length | exact Hf].
Qed.

Lemma unit_range_sample (s : Z) :
  (-32768 <= s < 32768)%Z -> unit_range (Val (s # 32768)%Q).
Proof.
  intros H. unfold unit_range, Qle, Qlt. cbn [Qnum Qden]. lia.
Qed.

(** X19. Whenever [decodeAudioData] returns a buffer, the buffer has the
    channel count and the sample rate asked for, which the device
    supports, and at least one frame; the frames it holds were all in the
    data, an even number of bytes; and every channel has that many
    samples, each of them a number from -1 up to, not including, 1: no
    store leaves a [NaN] or a value out of range. *)
Theorem decoded_buffer_in_range
    (data : list Byte.byte) (dev : AudioDevice) (sampleRate : Z)
    (numChannels : nat) (buffer : AudioBuffer) :
  decodeAudioData data dev sampleRate numChannels = Ok buffer ->
  AudioBuffer.numberOfChannels buffer = numChannels /\
  AudioBuffer.sampleRate buffer = sampleRate /\
  1 <= numChannels <= maxChannels dev /\
  rateSupported dev sampleRate = true /\
  1 <= AudioBuffer.length buffer /\
  AudioBuffer.length buffer * (numChannels * 2) <= length data /\
  Nat.even (length data) = true /\
  length (AudioBuffer.channelData buffer) = numChannels /\
  Forall (fun channel =>
            length channel = AudioBuffer.length buffer /\
            Forall unit_range channel)
         (AudioBuffer.channelData buffer).
Proof.
  unfold decodeAudioData.
  destruct (Int16Array data) as [d|] eqn:Hd; [|discriminate].
  destruct (Int16Array_Some (length data) data d (le_n _) Hd) as [Hlen Hrange].
  destruct numChannels as [|c']; [discriminate|].
  remember (S c') as c eqn:Ec.
  unfold createBuffer.
  set (len := to_unsigned_long (Z.of_nat (length d) # Pos.of_nat c)).
  destruct (_ || _ || _ || _) eqn:Ebad; [discriminate|].
  apply orb_false_iff in Ebad as [Ebad Hrate].
  apply orb_false_iff in Ebad as [Ebad Hzero].
  apply orb_false_iff in Ebad as [_ Hmax].
  apply negb_false_iff in Hrate. apply Nat.eqb_neq in Hzero.
  apply Nat.ltb_ge in Hmax.
  assert (Hfit : len * c <= length d).
  { subst len. unfold to_unsigned_long, Qfloor.
    assert (Hp : Zpos (Pos.of_nat c) = Z.of_nat c)
      by (rewrite <- positive_nat_Z, Nat2Pos.id; [reflexivity|lia]).
    rewrite Hp, <- Nat2Z.inj_div.
    pose proof (Z.mod_bound_pos_le (Z.of_nat (length d / c)) (2 ^ 32)
                  ltac:(lia) ltac:(lia)) as Hmod.
    assert (Z.to_nat (Z.of_nat (length d / c) mod 2 ^ 32) <= length d / c)
      by lia.
    pose proof (Nat.Div0.mul_div_le (length d) c).
    nia. }
  intros H. injection H as <-.
  cbn [AudioBuffer.numberOfChannels AudioBuffer.length AudioBuffer.sampleRate
       AudioBuffer.channelData].
  split; [reflexivity|]. split; [reflexivity|].
  split; [lia|]. split; [exact Hrate|]. split; [lia|].
  split; [rewrite Hlen; nia|].
  split; [rewrite Hlen; apply Nat.even_spec; now exists (length d)|].
  split; [now rewrite length_map, length_seq|].
  rewrite Forall_forall. intros channel Hin.
  apply in_map_iff in Hin as [ch [<- Hch]]. apply in_seq in Hch.
  rewrite (nth_indep _ [] (repeat (Val 0%Q) len))
    by (rewrite repeat_length; lia).
  rewrite nth_repeat.
  destruct (fill_channel_keeps unit_range d c ch
              (Z.to_nat (Qceiling (Z.of_nat (length d) # Pos.of_nat c)))
              (repeat (Val 0%Q) len)) as [Hl Hf].
  - apply Forall_forall. intros x Hx. apply repeat_spec in Hx. subst x.
    unfold unit_range, Qle, Qlt. cbn. lia.
  - intros i Hi. rewrite repeat_length in Hi. unfold sample.
    destruct (nth_error d (i * c + ch)) as [s|] eqn:Es.
    + apply unit_range_sample. rewrite Forall_forall in Hrange.
      apply Hrange. eapply nth_error_In. exact Es.
    + apply nth_error_None in Es. nia.
  - split; [now rewrite Hl, repeat_length | exact Hf].
Qed.

Lemma decoded_buffer_in_range_witness :
  exists buffer,
    decodeAudioData [u8 1; u8 0; u8 2; u8 0; u8 0; u8 128] device32 24000 2
    = Ok buffer /\
    AudioBuffer.length buffer = 1 /\
    Forall (fun channel =>
              length channel = AudioBuffer.length buffer /\
              Forall unit_range channel)
           (AudioBuffer.channelData buffer).
Proof.
  eexists. split; [reflexivity|]. split; [reflexivity|].
  eapply (decoded_buffer_in_range
            [u8 1; u8 0; u8 2; u8 0; u8 0; u8 128] device32 24000 2).
  reflexivity.
Defined.

(* ================================================================== *)
(** * The two ways to submit *)
(* ================================================================== *)

(** X20. The Ask button and the Enter key differ by the in-flight test and
    by nothing else: while no send is in flight, a click on Ask does what
    Enter does in every state, the test of the button on the raw input
    adding nothing to the test of [handleSend] on the trimmed input; while
    a send is in flight the click does nothing. *)
Theorem Ask_is_Enter_unless_loading
    (subject : Subject) (now : N) (st : TutorChat) :
  Ask_onClick subject now st
  = if loading st then (st, [], None)
    else onKeyPress_Enter subject now st.
Proof.
  unfold Ask_onClick, Ask_disabled, onKeyPress_Enter.
  destruct (loading st); [reflexivity|]. cbn [orb].
  destruct (negb (truthy (input st)) && negb (truthy_opt (image st))) eqn:E;
    [|reflexivity].
  apply andb_true_iff in E as [Hi Him].
  apply negb_true_iff in Him.
  destruct (input st) as [|c s] eqn:Ein; [|discriminate].
  symmetry. apply handleSend_blank; [now rewrite Ein | exact Him].
Qed.
